(** * rss_reader.py: the feed reader's story pipeline and rotation

    A shallow embedding of [RSSReaderApp] (src/rss_reader.py): the text
    cleaner [clean_html], the ingestion loop [load_feeds] and the rotation
    handlers [update_display], [action_next_story], [action_prev_story].

    Python values are modelled as follows.
    - [str] is a list of Unicode code points ([pystr]).
    - A call that may raise returns a [result]; the exception classes the
      program can meet are the constructors of [exception].
    - The libraries the program calls (bs4 with the lxml builder,
      feedparser, time, datetime, the file system) are Section variables:
      every theorem holds for all of them.  The bs4 tree itself
      ([PageElement]) and its traversals [find] and [get_text] are modelled
      after bs4's documented behaviour. *)

From Stdlib Require Import String Ascii List ZArith NArith Bool Lia.
From Stdlib Require Import Permutation Sorted.
From Equations Require Import Equations.
Import ListNotations.

Set Warnings "-register-all".

(* ===================================================================== *)
(** ** Python strings *)
(* ===================================================================== *)

Definition pychar := N.
Definition pystr := list pychar.

(** A string literal, as the list of its code points. *)
Definition py (s : string) : pystr :=
  map N_of_ascii (list_ascii_of_string s).

Definition pystr_eqb (a b : pystr) : bool :=
  if list_eq_dec N.eq_dec a b then true else false.

(** [str.isspace] on one character, which is also what [\s] matches in a
    [str] pattern: CPython's [Py_UNICODE_ISSPACE]. *)
Definition isspace (c : pychar) : bool :=
  ((9 <=? c) && (c <=? 13) || (28 <=? c) && (c <=? 32)
   || (c =? 133) || (c =? 160) || (c =? 5760)
   || (8192 <=? c) && (c <=? 8202)
   || (c =? 8232) || (c =? 8233) || (c =? 8239) || (c =? 8287)
   || (c =? 12288))%N.

(** The replacement character of [re.sub(r'\s+', ' ', _)]. *)
Definition SP : pychar := 32%N.

Fixpoint dropwhile (p : pychar -> bool) (s : pystr) : pystr :=
  match s with
  | [] => []
  | c :: s' => if p c then dropwhile p s' else s
  end.

(** [re.sub(r'\s+', ' ', s)]: scanning from the left, a whitespace
    character starts a match, the greedy [+] extends it over the whole
    run, the match is replaced by one space and scanning resumes after it;
    any other character is copied. *)
Equations? re_sub_spaces (s : pystr) : pystr by wf (List.length s) lt :=
  re_sub_spaces [] := [];
  re_sub_spaces (c :: s') with isspace c := {
    | true := SP :: re_sub_spaces (dropwhile isspace s');
    | false := c :: re_sub_spaces s' }.
Proof.
  clear. induction s' as [|d s' IH]; simpl; [lia|].
  destruct (isspace d); simpl in *; lia.
Qed.

(** [str.lstrip()], [str.rstrip()] and [str.strip()] with no argument. *)
Definition lstrip (s : pystr) : pystr := dropwhile isspace s.
Definition rstrip (s : pystr) : pystr := rev (dropwhile isspace (rev s)).
Definition strip (s : pystr) : pystr := rstrip (lstrip s).

(** Line 162: [re.sub(r'\s+', ' ', raw_text).strip()]. *)
Definition flatten (raw_text : pystr) : pystr :=
  strip (re_sub_spaces raw_text).

(* ===================================================================== *)
(** ** Exceptions *)
(* ===================================================================== *)

Inductive exception :=
| FileNotFoundError
| PermissionError
| IsADirectoryError
| UnicodeDecodeError
| UnicodeEncodeError
| IndexError
| KeyError
| TypeError
| ValueError
| OverflowError
| URLError
| ParserRejectedMarkup
| KeyboardInterrupt
| SystemExit.

(** [isinstance(e, Exception)]: what [except Exception] catches.  The last
    two classes derive from [BaseException] only. *)
Definition isinstance_Exception (e : exception) : bool :=
  match e with
  | KeyboardInterrupt | SystemExit => false
  | _ => true
  end.

(** [isinstance(e, FileNotFoundError)]: the class has no subclass. *)
Definition isinstance_FileNotFoundError (e : exception) : bool :=
  match e with
  | FileNotFoundError => true
  | _ => false
  end.

Inductive result (A : Type) :=
| Ok (a : A)
| Raise (e : exception).
Arguments Ok {A} a.
Arguments Raise {A} e.

Definition bind {A B} (r : result A) (k : A -> result B) : result B :=
  match r with
  | Ok a => k a
  | Raise e => Raise e
  end.

Notation "x <- r ;; k" := (bind r (fun x => k))
  (at level 61, r at next level, right associativity).

(** [l[i]] on a Python list. *)
Definition list_getitem {A} (l : list A) (i : Z) : result A :=
  let n := Z.of_nat (length l) in
  let j := (if i <? 0 then i + n else i)%Z in
  if ((j <? 0) || (n <=? j))%Z then Raise IndexError
  else match nth_error l (Z.to_nat j) with
       | Some a => Ok a
       | None => Raise IndexError
       end.

(** A value that is either [None] or a [str]. *)
Inductive pyval :=
| PyNone
| PyStr (s : pystr).

(** Truth value of such a value: [None] and [''] are false. *)
Definition truthy (v : pyval) : bool :=
  match v with
  | PyNone => false
  | PyStr [] => false
  | PyStr (_ :: _) => true
  end.

(** The [str] behind a value known to be one. *)
Definition markup_of (v : pyval) : pystr :=
  match v with
  | PyStr s => s
  | PyNone => []
  end.

(* ===================================================================== *)
(** ** The bs4 tree *)
(* ===================================================================== *)

(** A parsed document.  The [BeautifulSoup] object is itself a tag, named
    [[document]].  [Comment] stands for the string classes that
    [get_text] leaves out (comments, declarations, doctypes). *)
Inductive PageElement :=
| Tag (name : pystr) (contents : list PageElement)
| NavigableString (text : pystr)
| Comment (text : pystr).

(** [Tag.descendants]: every node below the tag, in document order. *)
Fixpoint descendants (e : PageElement) : list PageElement :=
  match e with
  | Tag _ cs => flat_map (fun c => c :: descendants c) cs
  | NavigableString _ => []
  | Comment _ => []
  end.

Definition is_tag_named (name : pystr) (e : PageElement) : bool :=
  match e with
  | Tag n _ => pystr_eqb n name
  | _ => false
  end.

(** [tag.find(name)]: the first descendant that is a tag of that name,
    [None] when there is none. *)
Definition find (name : pystr) (e : PageElement) : option PageElement :=
  List.find (is_tag_named name) (descendants e).

(** The strings [get_text] yields for one node. *)
Definition strings_of (e : PageElement) : pystr :=
  match e with
  | NavigableString s => s
  | _ => []
  end.

(** [get_text()]: on a tag, the descendant strings joined with the
    default separator, the empty string; on a string, the string itself
    when it is text. *)
Definition get_text (e : PageElement) : pystr :=
  match e with
  | Tag _ _ => flat_map strings_of (descendants e)
  | _ => strings_of e
  end.

(* ===================================================================== *)
(** ** clean_html *)
(* ===================================================================== *)

Definition fallback : pystr := py "No content available.".

Section Normalizer.

(** [BeautifulSoup(markup, "lxml")]. *)
Variable BeautifulSoup : pystr -> result PageElement.

(** Lines 144-164. *)
Definition clean_html (html_content : pyval) : result pystr :=
  if negb (truthy html_content) then Ok fallback
  else
    soup <- BeautifulSoup (markup_of html_content) ;;
    let first_p := find (py "p") soup in
    let raw_text :=
      match first_p with
      | Some p => get_text p
      | None => get_text soup
      end in
    let flat_text := flatten raw_text in
    Ok flat_text.

End Normalizer.

(* ===================================================================== *)
(** ** The normalizer as the design document words it *)
(* ===================================================================== *)

(** The maximal runs of a text: consecutive characters that are all
    whitespace or all not, each run tagged with which. *)
Fixpoint runs (s : pystr) : list (bool * pystr) :=
  match s with
  | [] => []
  | c :: s' =>
      match runs s' with
      | (b, r) :: rs =>
          if Bool.eqb b (isspace c) then (b, c :: r) :: rs
          else (isspace c, [c]) :: (b, r) :: rs
      | [] => [(isspace c, [c])]
      end
  end.

(** Every maximal run of whitespace becomes one space. *)
Definition collapse_run (r : bool * pystr) : pystr :=
  if fst r then [SP] else snd r.

Definition collapse_whitespace (s : pystr) : pystr :=
  flat_map collapse_run (runs s).

(** Trailing, then leading and trailing whitespace removed. *)
Fixpoint trim_right (s : pystr) : pystr :=
  match s with
  | [] => []
  | c :: s' =>
      match trim_right s' with
      | [] => if isspace c then [] else [c]
      | t => c :: t
      end
  end.

Definition trim (s : pystr) : pystr := trim_right (dropwhile isspace s).

(** A text is collapsed when its only whitespace is single spaces, none
    next to another. *)
Fixpoint collapsed (s : pystr) : bool :=
  match s with
  | [] => true
  | c :: s' =>
      (if isspace c
       then (c =? SP)%N && match s' with
                           | [] => true
                           | d :: _ => negb (isspace d)
                           end
       else true) && collapsed s'
  end.

Definition is_paragraph (e : PageElement) : bool := is_tag_named (py "p") e.

(** The first paragraph element below [e], searching each child before its
    later siblings. *)
Fixpoint first_paragraph (e : PageElement) : option PageElement :=
  match e with
  | Tag _ cs =>
      (fix first_in (l : list PageElement) : option PageElement :=
         match l with
         | [] => None
         | c :: l' =>
             if is_paragraph c then Some c
             else match first_paragraph c with
                  | Some p => Some p
                  | None => first_in l'
                  end
         end) cs
  | NavigableString _ => None
  | Comment _ => None
  end.

(** The text content of an element: its text leaves, markup discarded. *)
Fixpoint text_content (e : PageElement) : pystr :=
  match e with
  | Tag _ cs =>
      (fix text_in (l : list PageElement) : pystr :=
         match l with
         | [] => []
         | c :: l' => text_content c ++ text_in l'
         end) cs
  | NavigableString s => s
  | Comment _ => []
  end.

(** Step 2 on a parsed document: the text of its first paragraph, or of
    the whole document when it has none. *)
Definition extracted_text (doc : PageElement) : pystr :=
  match first_paragraph doc with
  | Some p => text_content p
  | None => text_content doc
  end.

(** Steps 1 to 4 of the normalizer's ladder, [doc] being the parsed
    markup. *)
Definition normalize_ladder (raw_markup : pyval) (doc : PageElement) : pystr :=
  match raw_markup with
  | PyNone => fallback
  | PyStr [] => fallback
  | PyStr (_ :: _) => trim (collapse_whitespace (extracted_text doc))
  end.

(* ===================================================================== *)
(** ** A tree builder for simple markup *)
(* ===================================================================== *)

(** The theorems below hold for every parser.  To run [clean_html] on
    concrete markup they are instantiated with [simple_soup], which stands
    for bs4 with lxml on simple markup only: text, the references [&lt;],
    [&gt;] and [&amp;], void elements such as [br], elements closed by
    their end tag and properly nested, tag names in either case.  It wraps
    the content in [html] and [body] as lxml does.

    It rejects a [str] that holds a surrogate code point, which cannot be
    encoded for lxml.

    Outside its fragment it is not a model of lxml: it knows no [html],
    [head] or [body] tag, and it closes an open paragraph for a new
    paragraph only, not for a [div] or another block element.  Text that
    comes before any element is put in a paragraph of its own, which is
    what lxml does with some versions of libxml2 and not with others; on
    markup that is text only, or that starts with an element, the string
    [clean_html] returns does not depend on this. *)

Inductive token :=
| StartTag (name : pystr)
| EndTag (name : pystr)
| Data (text : pystr).

(** The tokenizer's state; accumulated characters are kept reversed. *)
Inductive lex_mode :=
| InData (acc : pystr)
| InEntity (acc : pystr) (ent : pystr)
| InTagName (closing : bool) (acc : pystr)
| InAttrs (closing : bool) (name : pystr).

Definition LT : pychar := 60%N.
Definition GT : pychar := 62%N.
Definition AMP : pychar := 38%N.
Definition SEMI : pychar := 59%N.
Definition SLASH : pychar := 47%N.

Definition emit_data (acc : pystr) : list token :=
  match acc with
  | [] => []
  | _ => [Data (rev acc)]
  end.

(** [str.lower] on the letters A to Z: lxml gives tag names in lower
    case. *)
Definition lower (c : pychar) : pychar :=
  (if (65 <=? c) && (c <=? 90) then c + 32 else c)%N.

Definition emit_tag (closing : bool) (name : pystr) : list token :=
  if closing then [EndTag (map lower name)] else [StartTag (map lower name)].

(** The character a reference stands for, or the reference as written. *)
Definition decode_entity (ent : pystr) : pystr :=
  if pystr_eqb ent (py "lt") then [LT]
  else if pystr_eqb ent (py "gt") then [GT]
  else if pystr_eqb ent (py "amp") then [AMP]
  else AMP :: ent ++ [SEMI].

Definition isalpha (c : pychar) : bool :=
  ((65 <=? c) && (c <=? 90) || (97 <=? c) && (c <=? 122))%N.

Definition lex_data (acc : pystr) (c : pychar) : list token * lex_mode :=
  if (c =? LT)%N then (emit_data acc, InTagName false [])
  else if (c =? AMP)%N then ([], InEntity acc [])
  else ([], InData (c :: acc)).

Definition lex_step (m : lex_mode) (c : pychar) : list token * lex_mode :=
  match m with
  | InData acc => lex_data acc c
  | InEntity acc ent =>
      if (c =? SEMI)%N then ([], InData (rev (decode_entity (rev ent)) ++ acc))
      else if isalpha c then ([], InEntity acc (c :: ent))
      else lex_data (ent ++ AMP :: acc) c
  | InTagName closing acc =>
      if (c =? GT)%N then (emit_tag closing (rev acc), InData [])
      else if (c =? SLASH)%N then
        match acc with
        | [] => ([], InTagName true [])
        | _ => ([], InAttrs closing (rev acc))
        end
      else if isspace c then ([], InAttrs closing (rev acc))
      else ([], InTagName closing (c :: acc))
  | InAttrs closing name =>
      if (c =? GT)%N then (emit_tag closing name, InData [])
      else ([], InAttrs closing name)
  end.

Definition lex_end (m : lex_mode) : list token :=
  match m with
  | InData acc => emit_data acc
  | InEntity acc ent => emit_data (ent ++ AMP :: acc)
  | InTagName _ _ => []
  | InAttrs _ _ => []
  end.

Fixpoint lex (m : lex_mode) (s : pystr) : list token :=
  match s with
  | [] => lex_end m
  | c :: s' => let (out, m') := lex_step m c in out ++ lex m' s'
  end.

(** An open element: its name and its children so far, last first. *)
Definition frame := (pystr * list PageElement)%type.

Definition add_child (e : PageElement) (st : list frame) : list frame :=
  match st with
  | (n, cs) :: st' => (n, e :: cs) :: st'
  | [] => []
  end.

Definition close_top (st : list frame) : list frame :=
  match st with
  | (n, cs) :: st' => add_child (Tag n (rev cs)) st'
  | [] => []
  end.

(** Closes open elements up to and including the nearest one named [n];
    [pending] is the element just closed, to hang under the next one. *)
Fixpoint pop_to (n : pystr) (pending : list PageElement) (st : list frame)
  : list frame :=
  match st with
  | (m, cs) :: st' =>
      let e := Tag m (rev (pending ++ cs)) in
      if pystr_eqb m n then add_child e st' else pop_to n [e] st'
  | [] => []
  end.

(** Closes everything that is still open and returns the document. *)
Fixpoint finish (pending : list PageElement) (st : list frame) : PageElement :=
  match st with
  | (m, cs) :: st' =>
      let e := Tag m (rev (pending ++ cs)) in
      match st' with
      | [] => e
      | _ => finish [e] st'
      end
  | [] => Tag (py "[document]") []
  end.

Definition is_void (n : pystr) : bool :=
  existsb (pystr_eqb n) [py "br"; py "hr"; py "img"; py "input"; py "meta"; py "link"].

(** The implied [html] and [body], opened by the first content. *)
Definition with_body (st : list frame) : list frame :=
  match st with
  | [doc] => [(py "body", []); (py "html", []); doc]
  | _ => st
  end.

(** Is an element named [n] open above [body]? *)
Definition is_open (n : pystr) (st : list frame) : bool :=
  existsb (fun f => pystr_eqb (fst f) n) (firstn (List.length st - 3) st).

Definition build_step (st : list frame) (t : token) : list frame :=
  match t with
  | Data text =>
      match st with
      | [doc] =>
          if forallb isspace text then st
          else add_child (NavigableString text) ((py "p", []) :: with_body st)
      | _ => add_child (NavigableString text) st
      end
  | StartTag n =>
      let st1 := with_body st in
      let st2 :=
        if pystr_eqb n (py "p") && is_open (py "p") st1
        then pop_to (py "p") [] st1 else st1 in
      if is_void n then add_child (Tag n []) st2 else (n, []) :: st2
  | EndTag n =>
      if is_void n then st
      else if is_open n st then pop_to n [] st
      else st
  end.

(** A surrogate code point, U+D800 to U+DFFF: a [str] that holds one
    cannot be encoded as UTF-8. *)
Definition is_surrogate (c : pychar) : bool :=
  ((55296 <=? c) && (c <=? 57343))%N.

(** [BeautifulSoup(markup, "lxml")] on simple markup. *)
Definition simple_soup (markup : pystr) : result PageElement :=
  if existsb is_surrogate markup then Raise UnicodeEncodeError
  else
    Ok (finish [] (fold_left build_step (lex (InData []) markup)
                     [(py "[document]", [])])).

(* ===================================================================== *)
(** ** Feeds, stories and the application state *)
(* ===================================================================== *)

(** A naive [datetime], as its offset from [datetime.min] in
    microseconds: comparing two of them compares these offsets. *)
Definition datetime := Z.

(** [time.struct_time], as feedparser fills it. *)
Record struct_time := {
  tm_year : Z; tm_mon : Z; tm_mday : Z;
  tm_hour : Z; tm_min : Z; tm_sec : Z;
  tm_wday : Z; tm_yday : Z; tm_isdst : Z }.

(** One element of an entry's [content] list; the key ['value'] may be
    missing. *)
Record ContentDict := { value : option pyval }.

(** An entry of a parsed feed: each key may be missing. *)
Record Entry := {
  entry_content : option (list ContentDict);
  entry_summary : option pyval;
  entry_title : option pystr;
  published_parsed : option struct_time;
  updated_parsed : option struct_time }.

(** What [feedparser.parse] returns: [parsed.feed] (its title may be
    missing) and [parsed.entries]. *)
Record FeedParserDict := {
  feed_title : option pystr;
  entries : list Entry }.

(** The dictionaries appended to [all_entries] (lines 126-131). *)
Record Story := {
  title : pystr;
  date : datetime;
  source : pystr;
  body : pystr }.

(** [d.get(key, default)]. *)
Definition dict_get {A} (field : option A) (default : A) : A :=
  match field with
  | Some v => v
  | None => default
  end.

(** [d[key]]. *)
Definition dict_getitem {A} (field : option A) : result A :=
  match field with
  | Some v => Ok v
  | None => Raise KeyError
  end.

(** [a or b] on two values that are [None] or a [struct_time] (which is
    never false). *)
Definition or_else {A} (a b : option A) : option A :=
  match a with
  | Some _ => a
  | None => b
  end.

(** The stable sort behind [sorted] and [list.sort]: it compares with [<]
    only and keeps elements of equal key in their order. *)
Fixpoint insert_sorted {A} (key : A -> Z) (x : A) (l : list A) : list A :=
  match l with
  | [] => [x]
  | y :: l' =>
      if (key y <? key x)%Z then y :: insert_sorted key x l'
      else x :: l
  end.

Definition stable_sort {A} (key : A -> Z) (l : list A) : list A :=
  fold_right (insert_sorted key) [] l.

(** [sorted(l, key=key, reverse=reverse)].  With [reverse], CPython
    reverses the list, sorts it and reverses it again, so that equal
    elements keep their order. *)
Definition sorted {A} (l : list A) (key : A -> Z) (reverse : bool) : list A :=
  if reverse then rev (stable_sort key (rev l)) else stable_sort key l.

(** The attributes of [RSSReaderApp] and the content of its widgets.
    [auto_timer] is [None] until [on_mount] has created the timer, then
    the time elapsed since its last start. *)
Record App := {
  feed_file : pystr;
  stories : list Story;
  current_index : Z;
  auto_timer : option Z;
  title_widget : pystr;
  meta_widget : pystr;
  body_widget : pystr;
  scroll_y : Z;
  notifications : list pystr }.

Definition set_stories (l : list Story) (app : App) : App :=
  {| feed_file := feed_file app; stories := l;
     current_index := current_index app; auto_timer := auto_timer app;
     title_widget := title_widget app; meta_widget := meta_widget app;
     body_widget := body_widget app; scroll_y := scroll_y app;
     notifications := notifications app |}.

Definition set_current_index (i : Z) (app : App) : App :=
  {| feed_file := feed_file app; stories := stories app;
     current_index := i; auto_timer := auto_timer app;
     title_widget := title_widget app; meta_widget := meta_widget app;
     body_widget := body_widget app; scroll_y := scroll_y app;
     notifications := notifications app |}.

Definition set_auto_timer (t : option Z) (app : App) : App :=
  {| feed_file := feed_file app; stories := stories app;
     current_index := current_index app; auto_timer := t;
     title_widget := title_widget app; meta_widget := meta_widget app;
     body_widget := body_widget app; scroll_y := scroll_y app;
     notifications := notifications app |}.

(** [self.query_one("#title", Static).update(text)] and its siblings. *)
Definition update_title (text : pystr) (app : App) : App :=
  {| feed_file := feed_file app; stories := stories app;
     current_index := current_index app; auto_timer := auto_timer app;
     title_widget := text; meta_widget := meta_widget app;
     body_widget := body_widget app; scroll_y := scroll_y app;
     notifications := notifications app |}.

Definition update_meta (text : pystr) (app : App) : App :=
  {| feed_file := feed_file app; stories := stories app;
     current_index := current_index app; auto_timer := auto_timer app;
     title_widget := title_widget app; meta_widget := text;
     body_widget := body_widget app; scroll_y := scroll_y app;
     notifications := notifications app |}.

Definition update_body (text : pystr) (app : App) : App :=
  {| feed_file := feed_file app; stories := stories app;
     current_index := current_index app; auto_timer := auto_timer app;
     title_widget := title_widget app; meta_widget := meta_widget app;
     body_widget := text; scroll_y := scroll_y app;
     notifications := notifications app |}.

(** [self.query_one(VerticalScroll).scroll_home(animate=False)]. *)
Definition scroll_home (app : App) : App :=
  {| feed_file := feed_file app; stories := stories app;
     current_index := current_index app; auto_timer := auto_timer app;
     title_widget := title_widget app; meta_widget := meta_widget app;
     body_widget := body_widget app; scroll_y := 0%Z;
     notifications := notifications app |}.

(** [self.notify(message)]. *)
Definition notify (message : pystr) (app : App) : App :=
  {| feed_file := feed_file app; stories := stories app;
     current_index := current_index app; auto_timer := auto_timer app;
     title_widget := title_widget app; meta_widget := meta_widget app;
     body_widget := body_widget app; scroll_y := scroll_y app;
     notifications := notifications app ++ [message] |}.

(** [if self.auto_timer: self.auto_timer.reset()]. *)
Definition reset_auto_timer (app : App) : App :=
  match auto_timer app with
  | Some _ => set_auto_timer (Some 0%Z) app
  | None => app
  end.

(** The class attributes (lines 65-67) and the widgets as [compose]
    creates them (lines 73-80). *)
Definition initial_app (file : pystr) : App :=
  {| feed_file := file; stories := []; current_index := 0%Z;
     auto_timer := None;
     title_widget := py "Loading feeds..."; meta_widget := [];
     body_widget := []; scroll_y := 0%Z; notifications := [] |}.

(* ===================================================================== *)
(** ** RSSReaderApp *)
(* ===================================================================== *)

(** The libraries the application calls. *)
Class Externals := {
  (** [BeautifulSoup(markup, "lxml")]. *)
  BeautifulSoup : pystr -> result PageElement;
  (** [feedparser.parse(url)]. *)
  feedparser_parse : pystr -> result FeedParserDict;
  (** [time.mktime(t)], in whole seconds. *)
  time_mktime : struct_time -> result Z;
  (** [datetime.fromtimestamp(seconds)]. *)
  datetime_fromtimestamp : Z -> result datetime;
  (** [datetime.now()], as read while [all_entries] holds [n] stories: the
      clock is read at most once between two appends. *)
  datetime_now : nat -> datetime;
  (** [open(path, 'r')] and the iteration over the lines of the file. *)
  open_lines : pystr -> result (list pystr);
  (** [d.strftime("%Y-%m-%d %H:%M")]. *)
  strftime : datetime -> pystr }.

Section RSSReaderApp.

Context `{ext : Externals}.

(** Line 114:
    [entry.get('content', [{'value': entry.get('summary', '')}])[0]['value']]. *)
Definition raw_content_of (entry : Entry) : result pyval :=
  let default := [ {| value := Some (dict_get (entry_summary entry) (PyStr [])) |} ] in
  first <- list_getitem (dict_get (entry_content entry) default) 0 ;;
  dict_getitem (value first).

(** Lines 113-131: the story built from one entry, while [all_entries]
    holds [n] stories. *)
Definition story_of_entry (url : pystr) (parsed : FeedParserDict) (n : nat)
    (entry : Entry) : result Story :=
  raw_content <- raw_content_of entry ;;
  clean_text <- clean_html BeautifulSoup raw_content ;;
  let pub_date := or_else (published_parsed entry) (updated_parsed entry) in
  dt_object <-
    match pub_date with
    | Some t => seconds <- time_mktime t ;; datetime_fromtimestamp seconds
    | None => Ok (datetime_now n)
    end ;;
  Ok {| title := dict_get (entry_title entry) (py "No Title");
        date := dt_object;
        source := dict_get (feed_title parsed) url;
        body := clean_text |}.

(** Lines 112-131, the loop over [parsed.entries]: it appends to
    [all_entries] until an entry raises; what was appended stays. *)
Fixpoint for_entries (url : pystr) (parsed : FeedParserDict)
    (todo : list Entry) (all_entries : list Story)
  : list Story * option exception :=
  match todo with
  | [] => (all_entries, None)
  | entry :: todo' =>
      match story_of_entry url parsed (List.length all_entries) entry with
      | Ok story => for_entries url parsed todo' (all_entries ++ [story])
      | Raise e => (all_entries, Some e)
      end
  end.

(** Lines 110-131: the body of the [try] for one feed. *)
Definition try_feed (url : pystr) (all_entries : list Story)
  : list Story * option exception :=
  match feedparser_parse url with
  | Ok parsed => for_entries url parsed (entries parsed) all_entries
  | Raise e => (all_entries, Some e)
  end.

(** Lines 108-133, the loop over [urls]: [except Exception: continue]. *)
Fixpoint for_urls (urls : list pystr) (all_entries : list Story)
  : result (list Story) :=
  match urls with
  | [] => Ok all_entries
  | url :: urls' =>
      match try_feed url all_entries with
      | (all_entries', None) => for_urls urls' all_entries'
      | (all_entries', Some e) =>
          if isinstance_Exception e then for_urls urls' all_entries'
          else Raise e
      end
  end.

(** What one source adds to [all_entries] when the list holds [n] stories:
    the stories of its entries, in their order, up to the first entry
    that raises; nothing when [feedparser.parse] raises. *)
Fixpoint fetch_entries (url : pystr) (parsed : FeedParserDict)
    (todo : list Entry) (n : nat) : list Story :=
  match todo with
  | [] => []
  | entry :: todo' =>
      match story_of_entry url parsed n entry with
      | Ok story => story :: fetch_entries url parsed todo' (S n)
      | Raise _ => []
      end
  end.

Definition fetch (url : pystr) (n : nat) : list Story :=
  match feedparser_parse url with
  | Ok parsed => fetch_entries url parsed (entries parsed) n
  | Raise _ => []
  end.

(** The discovery order: the sources in the order of [urls], the stories
    of one source in the order of its entries. *)
Fixpoint discovery (urls : list pystr) (n : nat) : list Story :=
  match urls with
  | [] => []
  | url :: urls' =>
      fetch url n ++ discovery urls' (n + List.length (fetch url n))
  end.

(** Line 102: [[line.strip() for line in f if line.strip()]]. *)
Definition read_urls (lines : list pystr) : list pystr :=
  map strip (filter (fun line => negb (pystr_eqb (strip line) [])) lines).

(** Lines 166-182. *)
Definition update_display (app : App) : result App :=
  match stories app with
  | [] => Ok app
  | _ :: _ =>
      let app :=
        if (Z.of_nat (List.length (stories app)) <=? current_index app)%Z
        then set_current_index 0%Z app else app in
      story <- list_getitem (stories app) (current_index app) ;;
      let date_str := strftime (date story) in
      let app := update_title (title story) app in
      let app := update_meta (source story ++ py " | " ++ date_str) app in
      let app := update_body (body story) app in
      Ok (scroll_home app)
  end.

(** Lines 98-142.  An exception that no handler catches leaves the
    application as it was and is returned. *)
Definition load_feeds (app : App) : result App :=
  match open_lines (feed_file app) with
  | Raise e =>
      if isinstance_FileNotFoundError e
      then Ok (update_title (py "Error: feeds.txt not found") app)
      else Raise e
  | Ok lines =>
      let urls := read_urls lines in
      all_entries <- for_urls urls [] ;;
      match all_entries with
      | _ :: _ =>
          let app := set_stories (sorted all_entries date true) app in
          let app := set_current_index 0%Z app in
          update_display app
      | [] => Ok (update_title (py "No stories found.") app)
      end
  end.

(** Lines 93-96.  [refresh_feeds] notifies, starts a worker and returns:
    it gives the state it leaves and the function that the worker will
    run, [load_feeds], on the state the worker finds when it runs.  What
    the worker raises does not reach the caller of [refresh_feeds]. *)
Definition refresh_feeds (app : App) : App * (App -> result App) :=
  (notify (py "Refreshing RSS feeds...") app, load_feeds).

(** Lines 184-190. *)
Definition action_next_story (app : App) : result App :=
  match stories app with
  | _ :: _ =>
      let app :=
        set_current_index
          ((current_index app + 1) mod Z.of_nat (List.length (stories app)))%Z
          app in
      app <- update_display app ;;
      Ok (reset_auto_timer app)
  | [] => Ok app
  end.

(** Lines 192-198. *)
Definition action_prev_story (app : App) : result App :=
  match stories app with
  | _ :: _ =>
      let app :=
        set_current_index
          ((current_index app - 1) mod Z.of_nat (List.length (stories app)))%Z
          app in
      app <- update_display app ;;
      Ok (reset_auto_timer app)
  | [] => Ok app
  end.

End RSSReaderApp.

(** The same libraries over a source list that reads as [lines]. *)
Definition with_lines (w : Externals) (lines : list pystr) : Externals :=
  {| BeautifulSoup := @BeautifulSoup w;
     feedparser_parse := @feedparser_parse w;
     time_mktime := @time_mktime w;
     datetime_fromtimestamp := @datetime_fromtimestamp w;
     datetime_now := @datetime_now w;
     open_lines := fun _ => Ok lines;
     strftime := @strftime w |}.

(** The rotation invariant: with stories to show, [current_index] is an
    index of [stories]. *)
Definition index_valid (app : App) : Prop :=
  stories app <> [] ->
  (0 <= current_index app < Z.of_nat (List.length (stories app)))%Z.

(* ===================================================================== *)
(** ** A small world to run the application in *)
(* ===================================================================== *)

Module Fixture.

Definition at_hour (day hour : Z) : struct_time :=
  {| tm_year := 2024; tm_mon := 1; tm_mday := day;
     tm_hour := hour; tm_min := 0; tm_sec := 0;
     tm_wday := 0; tm_yday := day; tm_isdst := 0 |}.

(** Seconds since the start of the year; years before 1 are out of range. *)
Definition mktime (t : struct_time) : result Z :=
  if (tm_year t <? 1)%Z then Raise OverflowError
  else Ok ((((tm_yday t - 1) * 24 + tm_hour t) * 60 + tm_min t) * 60
           + tm_sec t)%Z.

Definition fromtimestamp (seconds : Z) : result datetime :=
  Ok (seconds * 1000000)%Z.

Definition now (n : nat) : datetime :=
  (40000000000000 + Z.of_nat n)%Z.

Definition format_date (d : datetime) : pystr := py "2024-01-01 00:00".

Definition NL : pystr := [10%N].

Definition entry_a1 : Entry :=
  {| entry_content :=
       Some [ {| value := Some (PyStr (py "<p>Hello<br>World</p><p>Second</p>")) |} ];
     entry_summary := Some (PyStr (py "short"));
     entry_title := Some (py "X");
     published_parsed := Some (at_hour 2 9);
     updated_parsed := None |}.

Definition entry_a2 : Entry :=
  {| entry_content := None;
     entry_summary := Some (PyStr (py "plain" ++ NL ++ py "  text"));
     entry_title := Some (py "Y");
     published_parsed := Some (at_hour 3 9);
     updated_parsed := Some (at_hour 4 9) |}.

Definition entry_a3 : Entry :=
  {| entry_content := None;
     entry_summary := None;
     entry_title := None;
     published_parsed := None;
     updated_parsed := Some (at_hour 2 9) |}.

Definition entry_c1 : Entry :=
  {| entry_content := None;
     entry_summary := Some (PyStr (py "first"));
     entry_title := Some (py "C1");
     published_parsed := Some (at_hour 3 9);
     updated_parsed := None |}.

(** An entry whose [content] list is empty: [[0]] raises [IndexError]. *)
Definition entry_c2 : Entry :=
  {| entry_content := Some [];
     entry_summary := Some (PyStr (py "second"));
     entry_title := Some (py "C2");
     published_parsed := Some (at_hour 5 9);
     updated_parsed := None |}.

Definition entry_c3 : Entry :=
  {| entry_content := None;
     entry_summary := Some (PyStr (py "third"));
     entry_title := Some (py "C3");
     published_parsed := Some (at_hour 6 9);
     updated_parsed := None |}.

(** Source [A] answers with three good entries, source [C] with an
    untitled feed whose second entry is broken, any other source is
    unreachable. *)
Definition parse_feed (url : pystr) : result FeedParserDict :=
  if pystr_eqb url (py "A") then
    Ok {| feed_title := Some (py "Feed A");
          entries := [entry_a1; entry_a2; entry_a3] |}
  else if pystr_eqb url (py "C") then
    Ok {| feed_title := None; entries := [entry_c1; entry_c2; entry_c3] |}
  else Raise URLError.

(** [feeds.txt] lists [A], [B] and [C]; [down.txt] lists two unreachable
    sources; [locked.txt] cannot be opened; no other file exists. *)
Definition read_file (path : pystr) : result (list pystr) :=
  if pystr_eqb path (py "feeds.txt") then
    Ok [py "A" ++ NL; NL; py "  B  " ++ NL; py "C"]
  else if pystr_eqb path (py "down.txt") then
    Ok [py "B" ++ NL; py "D" ++ NL]
  else if pystr_eqb path (py "locked.txt") then Raise PermissionError
  else Raise FileNotFoundError.

Definition story_x : Story :=
  {| title := py "X"; date := 118800000000%Z;
     source := py "Feed A"; body := py "HelloWorld" |}.

Definition story_y : Story :=
  {| title := py "Y"; date := 205200000000%Z;
     source := py "Feed A"; body := py "plain text" |}.

Definition story_z : Story :=
  {| title := py "No Title"; date := 118800000000%Z;
     source := py "Feed A"; body := py "No content available." |}.

Definition story_c1 : Story :=
  {| title := py "C1"; date := 205200000000%Z;
     source := py "C"; body := py "first" |}.

(** An application that already shows two stories, the second one up. *)
Definition populated (file : pystr) : App :=
  {| feed_file := file; stories := [story_y; story_x]; current_index := 1%Z;
     auto_timer := Some 7%Z;
     title_widget := py "X"; meta_widget := py "Feed A | 2024-01-01 00:00";
     body_widget := py "HelloWorld"; scroll_y := 3%Z;
     notifications := [py "Refreshing RSS feeds..."] |}.

Definition world : Externals :=
  {| BeautifulSoup := simple_soup;
     feedparser_parse := parse_feed;
     time_mktime := mktime;
     datetime_fromtimestamp := fromtimestamp;
     datetime_now := now;
     open_lines := read_file;
     strftime := format_date |}.

End Fixture.

(* ===================================================================== *)
(** ** Notions used to state further properties *)
(* ===================================================================== *)

(** A text in which the only whitespace is the space, no two spaces are
    adjacent, and neither end is a space. *)
Definition normalized_text (y : pystr) : Prop :=
  (forall c, In c y -> isspace c = true -> c = SP) /\
  (forall l1 l2, y <> l1 ++ SP :: SP :: l2) /\
  (forall l, y <> SP :: l) /\
  (forall l, y <> l ++ [SP]).

(** The widgets after lines 176-182 have shown [story]. *)
Definition show_story `{ext : Externals} (story : Story) (app : App) : App :=
  scroll_home
    (update_body (body story)
       (update_meta (source story ++ py " | " ++ strftime (date story))
          (update_title (title story) app))).

(** [app'] is [app] after a navigation step of [delta]: the index moved by
    [delta] modulo the number of stories, the story at the new index
    shown, the timer restarted when there is one, nothing else touched. *)
Definition moved_by `{ext : Externals} (delta : Z) (app app' : App) : Prop :=
  let n := Z.of_nat (List.length (stories app)) in
  current_index app' = ((current_index app + delta) mod n)%Z /\
  (0 <= current_index app' < n)%Z /\
  (exists story,
     nth_error (stories app) (Z.to_nat (current_index app')) = Some story /\
     title_widget app' = title story /\
     meta_widget app' = source story ++ py " | " ++ strftime (date story) /\
     body_widget app' = body story) /\
  scroll_y app' = 0%Z /\
  auto_timer app' = match auto_timer app with
                    | Some _ => Some 0%Z
                    | None => None
                    end /\
  stories app' = stories app /\
  feed_file app' = feed_file app /\
  notifications app' = notifications app.

(** A handler called [k] times in a row, stopping at the first call that
    raises. *)
Fixpoint repeat_action (action : App -> result App) (k : nat) (app : App)
  : result App :=
  match k with
  | O => Ok app
  | S k' => app' <- action app ;; repeat_action action k' app'
  end.

(* ===================================================================== *)
(** ** Whitespace: the regular expression against the maximal runs *)
(* ===================================================================== *)

Section Whitespace.

Lemma re_sub_spaces_cons (c : pychar) (s : pystr) :
  re_sub_spaces (c :: s) =
  if isspace c then SP :: re_sub_spaces (dropwhile isspace s)
  else c :: re_sub_spaces s.
Proof. simp re_sub_spaces. destruct (isspace c); reflexivity. Qed.

Lemma isspace_SP : isspace SP = true.
Proof. reflexivity. Qed.

Lemma dropwhile_all (s : pystr) :
  forallb isspace s = true -> dropwhile isspace s = [].
Proof.
  induction s as [|c s IH]; simpl; [reflexivity|].
  destruct (isspace c); simpl; [exact IH | discriminate].
Qed.

Lemma dropwhile_nil_all (s : pystr) :
  dropwhile isspace s = [] -> forallb isspace s = true.
Proof.
  induction s as [|c s IH]; simpl; [reflexivity|].
  destruct (isspace c); simpl; [exact IH | discriminate].
Qed.

Lemma dropwhile_app_last (s : pystr) (c : pychar) :
  dropwhile isspace (s ++ [c]) =
  if forallb isspace s then dropwhile isspace [c]
  else dropwhile isspace s ++ [c].
Proof.
  induction s as [|d s IH]; simpl; [reflexivity|].
  destruct (isspace d); simpl; [exact IH | reflexivity].
Qed.

(** The first run of a text starts with its first character. *)
Lemma runs_cons (c : pychar) (s : pystr) :
  exists r rs, runs (c :: s) = (isspace c, c :: r) :: rs.
Proof.
  simpl. destruct (runs s) as [|[b r] rs]; [now exists [], []|].
  destruct (Bool.eqb b (isspace c)) eqn:E.
  - apply Bool.eqb_prop in E. subst b. now exists r, rs.
  - now exists [], ((b, r) :: rs).
Qed.

Lemma collapse_whitespace_space (c : pychar) (s : pystr) :
  isspace c = true ->
  collapse_whitespace (c :: s) = SP :: collapse_whitespace (dropwhile isspace s).
Proof.
  intros Hc. revert c Hc. induction s as [|d s IH]; intros c Hc.
  - unfold collapse_whitespace. simpl. rewrite Hc. reflexivity.
  - destruct (isspace d) eqn:Hd.
    + simpl dropwhile. rewrite Hd. rewrite <- (IH d Hd).
      unfold collapse_whitespace.
      destruct (runs_cons d s) as (r & rs & E).
      change (runs (c :: d :: s)) with
        (match runs (d :: s) with
         | (b, r) :: rs =>
             if Bool.eqb b (isspace c) then (b, c :: r) :: rs
             else (isspace c, [c]) :: (b, r) :: rs
         | [] => [(isspace c, [c])]
         end).
      rewrite E, Hd, Hc. reflexivity.
    + simpl dropwhile. rewrite Hd.
      unfold collapse_whitespace.
      destruct (runs_cons d s) as (r & rs & E).
      change (runs (c :: d :: s)) with
        (match runs (d :: s) with
         | (b, r) :: rs =>
             if Bool.eqb b (isspace c) then (b, c :: r) :: rs
             else (isspace c, [c]) :: (b, r) :: rs
         | [] => [(isspace c, [c])]
         end).
      rewrite E, Hd, Hc. reflexivity.
Qed.

Lemma collapse_whitespace_other (c : pychar) (s : pystr) :
  isspace c = false ->
  collapse_whitespace (c :: s) = c :: collapse_whitespace s.
Proof.
  intros Hc. unfold collapse_whitespace. simpl.
  destruct (runs s) as [|[b r] rs]; simpl.
  - rewrite Hc. reflexivity.
  - rewrite Hc. destruct b; reflexivity.
Qed.

(** [re.sub(r'\s+', ' ', s)] replaces each maximal run of whitespace by
    one space. *)
Lemma re_sub_spaces_collapse (s : pystr) :
  re_sub_spaces s = collapse_whitespace s.
Proof.
  funelim (re_sub_spaces s).
  - reflexivity.
  - rewrite collapse_whitespace_space by assumption. now f_equal.
  - rewrite collapse_whitespace_other by assumption. now f_equal.
Qed.

Lemma rstrip_cons (c : pychar) (s : pystr) :
  rstrip (c :: s) =
  match rstrip s with
  | [] => if isspace c then [] else [c]
  | t => c :: t
  end.
Proof.
  unfold rstrip. simpl rev. rewrite dropwhile_app_last.
  destruct (forallb isspace (rev s)) eqn:E.
  - rewrite (dropwhile_all _ E). simpl. destruct (isspace c); reflexivity.
  - destruct (dropwhile isspace (rev s)) as [|d t] eqn:D.
    + apply dropwhile_nil_all in D. congruence.
    + rewrite rev_app_distr.
      change (rev [c] ++ rev (d :: t)) with (c :: rev (d :: t)).
      destruct (rev (d :: t)) eqn:R; [|reflexivity].
      apply (f_equal (@List.length _)) in R. rewrite length_rev in R.
      discriminate.
Qed.

Lemma rstrip_trim_right (s : pystr) : rstrip s = trim_right s.
Proof.
  induction s as [|c s IH]; [reflexivity|].
  rewrite rstrip_cons, IH. reflexivity.
Qed.

(** Line 162 computes what the design document asks for. *)
Lemma flatten_collapse_trim (s : pystr) :
  flatten s = trim (collapse_whitespace s).
Proof.
  unfold flatten, strip, trim, lstrip.
  now rewrite rstrip_trim_right, re_sub_spaces_collapse.
Qed.

Lemma collapsed_tail (c : pychar) (s : pystr) :
  collapsed (c :: s) = true -> collapsed s = true.
Proof. simpl. intros H. now apply andb_true_iff in H. Qed.

Lemma re_sub_spaces_collapsed (s : pystr) : collapsed (re_sub_spaces s) = true.
Proof.
  funelim (re_sub_spaces s).
  - reflexivity.
  - cbn [collapsed]. rewrite isspace_SP, H, N.eqb_refl, andb_true_r.
    destruct (dropwhile isspace s') as [|d u] eqn:D; [reflexivity|].
    rewrite re_sub_spaces_cons.
    assert (isspace d = false) as Hd.
    { clear -D. induction s' as [|e s' IH]; simpl in D; [discriminate|].
      destruct (isspace e) eqn:E; [auto | congruence]. }
    rewrite Hd. simpl. now rewrite Hd.
  - cbn [collapsed]. rewrite Heq. exact H.
Qed.

Lemma re_sub_spaces_fixed (s : pystr) :
  collapsed s = true -> re_sub_spaces s = s.
Proof.
  induction s as [|c s IH]; intros H; [reflexivity|].
  rewrite re_sub_spaces_cons. pose proof (collapsed_tail _ _ H) as Ht.
  simpl in H. destruct (isspace c) eqn:Hc.
  - apply andb_true_iff in H as [H _]. apply andb_true_iff in H as [Hsp Hd].
    apply N.eqb_eq in Hsp. subst c. f_equal.
    destruct s as [|d s]; [reflexivity|].
    apply negb_true_iff in Hd. simpl dropwhile. rewrite Hd. now apply IH.
  - f_equal. now apply IH.
Qed.

Lemma collapsed_dropwhile (s : pystr) :
  collapsed s = true -> collapsed (dropwhile isspace s) = true.
Proof.
  induction s as [|c s IH]; intros H; [reflexivity|].
  simpl dropwhile. destruct (isspace c); [|exact H].
  apply IH. exact (collapsed_tail _ _ H).
Qed.

Lemma trim_right_head (s u : pystr) (d : pychar) :
  trim_right s = d :: u -> exists s', s = d :: s'.
Proof.
  destruct s as [|c s]; simpl; [discriminate|].
  destruct (trim_right s); [destruct (isspace c)|]; intros [= <- _]; eauto.
Qed.

Lemma collapsed_trim_right (s : pystr) :
  collapsed s = true -> collapsed (trim_right s) = true.
Proof.
  induction s as [|c s IH]; intros H; [reflexivity|].
  pose proof (IH (collapsed_tail _ _ H)) as IH'.
  simpl trim_right. destruct (trim_right s) as [|d u] eqn:T.
  - destruct (isspace c) eqn:Hc; [reflexivity|]. simpl. now rewrite Hc.
  - destruct (trim_right_head _ _ _ T) as [s' ->].
    change (collapsed (c :: d :: u)) with
      ((if isspace c then (c =? SP)%N && negb (isspace d) else true)
       && collapsed (d :: u)).
    rewrite IH', andb_true_r.
    simpl in H. apply andb_true_iff in H as [H _]. exact H.
Qed.

Lemma trim_right_idempotent (s : pystr) :
  trim_right (trim_right s) = trim_right s.
Proof.
  induction s as [|c s IH]; [reflexivity|].
  simpl. destruct (trim_right s) as [|d u] eqn:T.
  - destruct (isspace c) eqn:Hc; [reflexivity|]. simpl. now rewrite Hc.
  - change (trim_right (c :: d :: u)) with
      (match trim_right (d :: u) with
       | [] => if isspace c then [] else [c]
       | t => c :: t
       end).
    rewrite IH. reflexivity.
Qed.

Lemma dropwhile_idempotent (s : pystr) :
  dropwhile isspace (dropwhile isspace s) = dropwhile isspace s.
Proof.
  induction s as [|c s IH]; [reflexivity|].
  simpl. destruct (isspace c) eqn:Hc; [exact IH|]. simpl. now rewrite Hc.
Qed.

Lemma dropwhile_trim_right (s : pystr) :
  dropwhile isspace s = s ->
  dropwhile isspace (trim_right s) = trim_right s.
Proof.
  intros H. destruct (trim_right s) as [|d u] eqn:T; [reflexivity|].
  destruct (trim_right_head _ _ _ T) as [s' ->].
  simpl in H. simpl. destruct (isspace d); [|reflexivity].
  exfalso. apply (f_equal (@List.length _)) in H. simpl in H.
  assert (forall t, List.length (dropwhile isspace t) <= List.length t)%nat as L.
  { clear. induction t as [|e t IH]; simpl; [lia|].
    destruct (isspace e); simpl; lia. }
  specialize (L s'). lia.
Qed.

Lemma trim_idempotent (s : pystr) : trim (trim s) = trim s.
Proof.
  unfold trim.
  rewrite (dropwhile_trim_right _ (dropwhile_idempotent s)).
  apply trim_right_idempotent.
Qed.

Lemma strip_trim (s : pystr) : strip s = trim s.
Proof. unfold strip, trim, lstrip. apply rstrip_trim_right. Qed.

(** Flattening a flattened text changes nothing. *)
Lemma flatten_idempotent (s : pystr) : flatten (flatten s) = flatten s.
Proof.
  unfold flatten. rewrite !strip_trim.
  rewrite re_sub_spaces_fixed, trim_idempotent; [reflexivity|].
  unfold trim. apply collapsed_trim_right, collapsed_dropwhile.
  apply re_sub_spaces_collapsed.
Qed.

(** A text of whitespace only flattens to the empty string. *)
Lemma flatten_whitespace (s : pystr) :
  forallb isspace s = true -> flatten s = [].
Proof.
  intros H. unfold flatten. destruct s as [|c s]; [reflexivity|].
  simpl in H. apply andb_true_iff in H as [Hc Hs].
  rewrite re_sub_spaces_cons, Hc, (dropwhile_all _ Hs). reflexivity.
Qed.

(** A text without whitespace is left as it is. *)
Lemma flatten_word (s : pystr) :
  forallb (fun c => negb (isspace c)) s = true -> flatten s = s.
Proof.
  intros H. unfold flatten. rewrite strip_trim.
  assert (collapsed s = true) as C.
  { induction s as [|c s IH]; [reflexivity|]. simpl in *.
    apply andb_true_iff in H as [Hc Hs]. apply negb_true_iff in Hc.
    rewrite Hc. now apply IH. }
  rewrite (re_sub_spaces_fixed _ C). unfold trim.
  assert (dropwhile isspace s = s) as ->.
  { destruct s as [|c s]; [reflexivity|]. simpl in *.
    apply andb_true_iff in H as [Hc _]. apply negb_true_iff in Hc.
    now rewrite Hc. }
  clear C. induction s as [|c s IH]; [reflexivity|]. simpl in *.
  apply andb_true_iff in H as [Hc Hs]. apply negb_true_iff in Hc.
  rewrite (IH Hs), Hc. destruct s; reflexivity.
Qed.

End Whitespace.

(* ===================================================================== *)
(** ** The bs4 traversals against the recursive reading of the tree *)
(* ===================================================================== *)

Section Traversals.

(** Induction on a tree, with the hypothesis for every child. *)
Lemma PageElement_tree_ind (P : PageElement -> Prop) :
  (forall n cs, Forall P cs -> P (Tag n cs)) ->
  (forall s, P (NavigableString s)) ->
  (forall s, P (Comment s)) ->
  forall e, P e.
Proof.
  intros HT HS HC. fix IH 1. intros [n cs | s | s].
  - apply HT. induction cs as [|c cs IHcs]; constructor; [apply IH | exact IHcs].
  - apply HS.
  - apply HC.
Qed.

Lemma find_app {A} (f : A -> bool) (l1 l2 : list A) :
  List.find f (l1 ++ l2) =
  match List.find f l1 with
  | Some x => Some x
  | None => List.find f l2
  end.
Proof.
  induction l1 as [|a l1 IH]; simpl; [reflexivity|].
  destruct (f a); [reflexivity | exact IH].
Qed.

(** [find('p')] returns the first paragraph in document order. *)
Lemma find_first_paragraph (e : PageElement) :
  find (py "p") e = first_paragraph e.
Proof.
  induction e as [n cs IH | s | s] using PageElement_tree_ind;
    [|reflexivity|reflexivity].
  unfold find. simpl descendants.
  induction IH as [|c cs Hc _ IHcs]; [reflexivity|].
  simpl flat_map. cbn [List.find app].
  change (is_tag_named (py "p") c) with (is_paragraph c).
  cbn [first_paragraph]. destruct (is_paragraph c); [reflexivity|].
  rewrite find_app. fold (find (py "p") c). rewrite Hc.
  destruct (first_paragraph c); [reflexivity|]. exact IHcs.
Qed.

(** [get_text()] is the concatenation of the text leaves. *)
Lemma get_text_text_content (e : PageElement) :
  get_text e = text_content e.
Proof.
  induction e as [n cs IH | s | s] using PageElement_tree_ind;
    [|reflexivity|reflexivity].
  unfold get_text. simpl descendants.
  induction IH as [|c cs Hc _ IHcs]; [reflexivity|].
  cbn [flat_map]. rewrite flat_map_app. cbn [text_content].
  cbn [text_content] in IHcs. rewrite IHcs. f_equal.
  rewrite <- Hc. destruct c; simpl; auto using app_nil_r.
Qed.

End Traversals.

(* ===================================================================== *)
(** ** clean_html *)
(* ===================================================================== *)

Section CleanHtml.

Variable BeautifulSoup : pystr -> result PageElement.

Lemma truthy_markup (raw : pyval) :
  truthy raw = true -> exists c s, raw = PyStr (c :: s).
Proof. destruct raw as [|[|c s]]; simpl; try discriminate. eauto. Qed.

(** On content that is not empty and that the parser accepts, the result
    is the flattened text of the first paragraph, or of the document. *)
Lemma clean_html_parsed (raw : pyval) (doc : PageElement) :
  truthy raw = true ->
  BeautifulSoup (markup_of raw) = Ok doc ->
  clean_html BeautifulSoup raw = Ok (flatten (extracted_text doc)).
Proof.
  intros Ht Hp. unfold clean_html. rewrite Ht, Hp. simpl.
  unfold extracted_text. rewrite find_first_paragraph.
  destruct (first_paragraph doc); now rewrite get_text_text_content.
Qed.

Lemma clean_html_empty (raw : pyval) :
  truthy raw = false -> clean_html BeautifulSoup raw = Ok fallback.
Proof. intros Ht. unfold clean_html. now rewrite Ht. Qed.

(** C1, as the code has it.  When the parsed markup starts with a
    paragraph holding a word, a line break and a word, and a second
    paragraph follows, clean_html returns the two words joined with
    nothing between them (the line break holds no text and get_text joins
    with the empty string), and nothing of the second paragraph. *)
Theorem clean_html_line_break
    (markup w1 w2 : pystr) (second rest : list PageElement) :
  markup <> [] ->
  forallb (fun c => negb (isspace c)) (w1 ++ w2) = true ->
  BeautifulSoup markup =
    Ok (Tag (py "[document]")
          [Tag (py "html")
             [Tag (py "body")
                (Tag (py "p")
                   [NavigableString w1; Tag (py "br") []; NavigableString w2]
                 :: Tag (py "p") second :: rest)]]) ->
  clean_html BeautifulSoup (PyStr markup) = Ok (w1 ++ w2).
Proof.
  intros Hm Hw Hp.
  assert (truthy (PyStr markup) = true) as Ht
    by (destruct markup; [contradiction | reflexivity]).
  rewrite (clean_html_parsed _ _ Ht Hp).
  unfold extracted_text. cbn. rewrite app_nil_r. now rewrite flatten_word.
Qed.

(** C2.  clean_html follows the ladder: the fixed string for empty or
    absent content; otherwise, [doc] being the parsed markup, the text of
    its first paragraph, or of the whole document when it has none, with
    every maximal run of whitespace collapsed to one space and the ends
    trimmed. *)
Theorem clean_html_normalize_ladder (raw_markup : pyval) (doc : PageElement) :
  (truthy raw_markup = true ->
   BeautifulSoup (markup_of raw_markup) = Ok doc) ->
  clean_html BeautifulSoup raw_markup = Ok (normalize_ladder raw_markup doc).
Proof.
  intros Hp. destruct (truthy raw_markup) eqn:Ht.
  - rewrite (clean_html_parsed _ _ Ht (Hp eq_refl)), flatten_collapse_trim.
    destruct (truthy_markup _ Ht) as (c & s & ->). reflexivity.
  - rewrite (clean_html_empty _ Ht).
    destruct raw_markup as [|[|c s]]; [reflexivity | reflexivity | discriminate].
Qed.

(** C6, as the code has it.  clean_html has no handler: when the parser
    rejects content that is not empty, its exception leaves clean_html
    and reaches the caller; no string is returned. *)
Theorem clean_html_parse_failure (markup : pystr) (e : exception) :
  markup <> [] ->
  BeautifulSoup markup = Raise e ->
  clean_html BeautifulSoup (PyStr markup) = Raise e.
Proof.
  intros Hm Hp. unfold clean_html.
  destruct markup as [|c s]; [contradiction|]. simpl. now rewrite Hp.
Qed.

(** C9, as the code has it.  A result of clean_html that is not empty and
    that the parser reads back as plain text (the text extracted from its
    parse is the result itself) is returned unchanged by a second
    clean_html. *)
Theorem clean_html_idempotent_on_plain_text
    (x : pyval) (y : pystr) (doc : PageElement) :
  clean_html BeautifulSoup x = Ok y ->
  y <> [] ->
  BeautifulSoup y = Ok doc ->
  extracted_text doc = y ->
  clean_html BeautifulSoup (PyStr y) = Ok y.
Proof.
  intros Hx Hy Hp Ht.
  assert (flatten y = y) as Hflat.
  { destruct (truthy x) eqn:Tx.
    - unfold clean_html in Hx. rewrite Tx in Hx. simpl in Hx.
      destruct (BeautifulSoup (markup_of x)); [|discriminate].
      simpl in Hx. injection Hx as <-. apply flatten_idempotent.
    - rewrite (clean_html_empty _ Tx) in Hx. injection Hx as <-.
      vm_compute. reflexivity. }
  assert (truthy (PyStr y) = true) as Ty
    by (destruct y; [contradiction | reflexivity]).
  rewrite (clean_html_parsed _ _ Ty Hp). now rewrite Ht, Hflat.
Qed.

(** C10, as the code has it.  Content that is not empty, that the parser
    accepts and whose extracted text is whitespace only (an empty first
    paragraph, a blank document) gives the empty string, which is not the
    fixed string.  The fixed string is returned exactly for empty or
    absent content and for content whose extracted text flattens to that
    very string; when the parser raises, clean_html raises and returns
    nothing. *)
Theorem clean_html_blank_text (raw : pyval) :
  (forall doc,
     truthy raw = true ->
     BeautifulSoup (markup_of raw) = Ok doc ->
     forallb isspace (extracted_text doc) = true ->
     clean_html BeautifulSoup raw = Ok [] /\
     clean_html BeautifulSoup raw <> Ok fallback) /\
  (clean_html BeautifulSoup raw = Ok fallback <->
   truthy raw = false \/
   exists doc,
     truthy raw = true /\
     BeautifulSoup (markup_of raw) = Ok doc /\
     flatten (extracted_text doc) = fallback) /\
  (forall e,
     truthy raw = true ->
     BeautifulSoup (markup_of raw) = Raise e ->
     clean_html BeautifulSoup raw = Raise e).
Proof.
  split; [|split].
  - intros doc Ht Hp Hw.
    rewrite (clean_html_parsed _ _ Ht Hp), (flatten_whitespace _ Hw).
    split; [reflexivity | discriminate].
  - destruct (truthy raw) eqn:Ht.
    + destruct (BeautifulSoup (markup_of raw)) as [doc|e] eqn:Hp.
      * rewrite (clean_html_parsed _ _ Ht Hp). split.
        -- intros [= Hf]. right. exists doc. now repeat split.
        -- intros [Hf|(doc' & _ & [= <-] & Hf)]; [discriminate|].
           now rewrite Hf.
      * assert (clean_html BeautifulSoup raw = Raise e) as ->
          by (unfold clean_html; now rewrite Ht, Hp).
        split; [discriminate|].
        intros [Hf|(doc' & _ & Hd & _)]; discriminate.
    + rewrite (clean_html_empty _ Ht). split; [now left | reflexivity].
  - intros e Ht Hp. unfold clean_html. now rewrite Ht, Hp.
Qed.

End CleanHtml.

(** C1 on the markup of the claim. *)
Lemma clean_html_line_break_witness :
  clean_html simple_soup (PyStr (py "<p>Hello<br>World</p><p>Second</p>"))
  = Ok (py "Hello" ++ py "World").
Proof.
  apply (clean_html_line_break simple_soup
           (py "<p>Hello<br>World</p><p>Second</p>") (py "Hello") (py "World")
           [NavigableString (py "Second")] []).
  - discriminate.
  - reflexivity.
  - reflexivity.
Defined.

(** C1 as stated fails: the two words come out with no space between. *)
Lemma clean_html_line_break_counterexample :
  clean_html simple_soup (PyStr (py "<p>Hello<br>World</p><p>Second</p>"))
  = Ok (py "HelloWorld") /\
  clean_html simple_soup (PyStr (py "<p>Hello<br>World</p><p>Second</p>"))
  <> Ok (py "Hello World").
Proof. split; [reflexivity | discriminate]. Qed.

(** C2 on markup without a paragraph: the text of the whole document. *)
Lemma clean_html_normalize_ladder_witness :
  clean_html simple_soup
    (PyStr (py "<b>one</b>" ++ [10; 32]%N ++ py "<i>two</i>" ++ [9]%N))
  = Ok (py "one two").
Proof.
  apply (clean_html_normalize_ladder simple_soup
           (PyStr (py "<b>one</b>" ++ [10; 32]%N ++ py "<i>two</i>" ++ [9]%N))
           (Tag (py "[document]")
              [Tag (py "html")
                 [Tag (py "body")
                    [Tag (py "b") [NavigableString (py "one")];
                     NavigableString [10; 32]%N;
                     Tag (py "i") [NavigableString (py "two")];
                     NavigableString [9]%N]]])).
  intros _. reflexivity.
Defined.

(** C6 on a [str] that holds a lone surrogate, which cannot be encoded
    for lxml. *)
Lemma clean_html_parse_failure_witness :
  clean_html simple_soup (PyStr [55296%N]) = Raise UnicodeEncodeError.
Proof.
  apply (clean_html_parse_failure simple_soup [55296%N] UnicodeEncodeError).
  - discriminate.
  - reflexivity.
Defined.

(** C6 as stated fails: on that [str] the parser raises, and clean_html
    raises with it instead of returning the fixed string. *)
Lemma clean_html_parse_failure_counterexample :
  (exists e,
     simple_soup [55296%N] = Raise e /\
     clean_html simple_soup (PyStr [55296%N]) = Raise e) /\
  clean_html simple_soup (PyStr [55296%N]) <> Ok fallback.
Proof.
  split; [|discriminate].
  exists UnicodeEncodeError. split; reflexivity.
Qed.

(** C9 on a text with runs of whitespace. *)
Lemma clean_html_idempotent_on_plain_text_witness :
  clean_html simple_soup (PyStr (py "Hello World")) = Ok (py "Hello World").
Proof.
  apply (clean_html_idempotent_on_plain_text simple_soup
           (PyStr (py "<p>  Hello" ++ [10; 9]%N ++ py "World </p>"))
           (py "Hello World")
           (Tag (py "[document]")
              [Tag (py "html")
                 [Tag (py "body")
                    [Tag (py "p") [NavigableString (py "Hello World")]]]])).
  - reflexivity.
  - discriminate.
  - reflexivity.
  - reflexivity.
Defined.

(** C9 as stated fails: an empty paragraph gives the empty string, and the
    empty string gives the fixed string. *)
Lemma clean_html_idempotent_counterexample :
  clean_html simple_soup (PyStr (py "<p></p>")) = Ok [] /\
  (y <- clean_html simple_soup (PyStr (py "<p></p>")) ;;
   clean_html simple_soup (PyStr y)) = Ok fallback /\
  (y <- clean_html simple_soup (PyStr (py "<p></p>")) ;;
   clean_html simple_soup (PyStr y))
  <> clean_html simple_soup (PyStr (py "<p></p>")).
Proof. split; [reflexivity | split; [reflexivity | discriminate]]. Qed.

(** Nor is a result idempotent when it holds markup: the references of
    the first pass are tags for the second. *)
Example clean_html_twice_on_references :
  clean_html simple_soup (PyStr (py "<p>&lt;b&gt;bold&lt;/b&gt;</p>"))
  = Ok (py "<b>bold</b>") /\
  clean_html simple_soup (PyStr (py "<b>bold</b>")) = Ok (py "bold").
Proof. split; reflexivity. Qed.

(** C10 on an empty first paragraph followed by text. *)
Lemma clean_html_blank_text_witness :
  clean_html simple_soup (PyStr (py "<p> </p><p>text</p>")) = Ok [] /\
  clean_html simple_soup (PyStr (py "<p> </p><p>text</p>")) <> Ok fallback.
Proof.
  apply (proj1 (clean_html_blank_text simple_soup
                  (PyStr (py "<p> </p><p>text</p>")))
           (Tag (py "[document]")
              [Tag (py "html")
                 [Tag (py "body")
                    [Tag (py "p") [NavigableString (py " ")];
                     Tag (py "p") [NavigableString (py "text")]]]])).
  - reflexivity.
  - reflexivity.
  - reflexivity.
Defined.

(** C10 as stated fails in its last clause: content that is not empty and
    that the parser accepts gives the fixed string when that is its
    text. *)
Lemma clean_html_blank_text_counterexample :
  truthy (PyStr (py "<p>No content available.</p>")) = true /\
  (exists doc, simple_soup (py "<p>No content available.</p>") = Ok doc) /\
  clean_html simple_soup (PyStr (py "<p>No content available.</p>"))
  = Ok fallback.
Proof.
  split; [reflexivity|]. split; [|reflexivity].
  eexists. reflexivity.
Qed.

(* ===================================================================== *)
(** ** sorted *)
(* ===================================================================== *)

Section Sorting.

Context {A : Type} (key : A -> Z).

Lemma insert_sorted_perm (x : A) (l : list A) :
  Permutation (x :: l) (insert_sorted key x l).
Proof.
  induction l as [|y l IH]; simpl; [reflexivity|].
  destruct (key y <? key x)%Z; [|reflexivity].
  rewrite perm_swap. now constructor.
Qed.

Lemma stable_sort_perm (l : list A) : Permutation l (stable_sort key l).
Proof.
  induction l as [|x l IH]; simpl; [constructor|].
  rewrite <- insert_sorted_perm. now constructor.
Qed.

Lemma insert_sorted_sorted (x : A) (l : list A) :
  StronglySorted (fun a b => key a <= key b)%Z l ->
  StronglySorted (fun a b => key a <= key b)%Z (insert_sorted key x l).
Proof.
  induction 1 as [|y l Hs IH Hy]; simpl.
  - repeat constructor.
  - destruct (key y <? key x)%Z eqn:E.
    + apply Z.ltb_lt in E. constructor; [exact IH|].
      rewrite <- insert_sorted_perm. constructor; [lia | exact Hy].
    + apply Z.ltb_ge in E. constructor; [now constructor|].
      constructor; [exact E|].
      eapply Forall_impl; [|exact Hy]. simpl. intros; lia.
Qed.

Lemma stable_sort_sorted (l : list A) :
  StronglySorted (fun a b => key a <= key b)%Z (stable_sort key l).
Proof.
  induction l as [|x l IH]; simpl; [constructor|].
  now apply insert_sorted_sorted.
Qed.

(** Insertion puts an element before the elements of the same key. *)
Lemma insert_sorted_filter (d : Z) (x : A) (l : list A) :
  filter (fun a => key a =? d)%Z (insert_sorted key x l) =
  filter (fun a => key a =? d)%Z (x :: l).
Proof.
  induction l as [|y l IH]; [reflexivity|].
  simpl insert_sorted. destruct (key y <? key x)%Z eqn:E; [|reflexivity].
  apply Z.ltb_lt in E. cbn [filter] in *. rewrite IH.
  destruct (key x =? d)%Z eqn:Ex; [|reflexivity].
  apply Z.eqb_eq in Ex.
  assert ((key y =? d)%Z = false) as -> by (apply Z.eqb_neq; lia).
  reflexivity.
Qed.

Lemma stable_sort_filter (d : Z) (l : list A) :
  filter (fun a => key a =? d)%Z (stable_sort key l) =
  filter (fun a => key a =? d)%Z l.
Proof.
  induction l as [|x l IH]; [reflexivity|].
  simpl stable_sort. rewrite insert_sorted_filter. cbn [filter].
  now rewrite IH.
Qed.

Lemma StronglySorted_app (R : A -> A -> Prop) (l1 l2 : list A) :
  StronglySorted R l1 -> StronglySorted R l2 ->
  (forall a b, In a l1 -> In b l2 -> R a b) ->
  StronglySorted R (l1 ++ l2).
Proof.
  induction 1 as [|x l1 Hs IH Hx]; intros H2 H12; [exact H2|].
  simpl. constructor.
  - apply IH; [exact H2|]. intros a b Ha Hb. apply H12; [now right | exact Hb].
  - apply Forall_app. split; [exact Hx|].
    apply Forall_forall. intros b Hb. apply H12; [now left | exact Hb].
Qed.

Lemma StronglySorted_rev (R : A -> A -> Prop) (l : list A) :
  StronglySorted R l -> StronglySorted (fun a b => R b a) (rev l).
Proof.
  induction 1 as [|x l Hs IH Hx]; simpl; [constructor|].
  apply StronglySorted_app; [exact IH | repeat constructor |].
  intros a b Ha [<-|[]]. apply in_rev in Ha.
  rewrite Forall_forall in Hx. now apply Hx.
Qed.

(** [sorted(l, key=key, reverse=True)] is [l] rearranged by decreasing
    key, elements of equal key in the order they have in [l]. *)
Lemma sorted_reverse_spec (l : list A) :
  Permutation l (sorted l key true) /\
  StronglySorted (fun a b => key b <= key a)%Z (sorted l key true) /\
  forall d, filter (fun a => key a =? d)%Z (sorted l key true) =
            filter (fun a => key a =? d)%Z l.
Proof.
  unfold sorted. repeat split.
  - now rewrite <- Permutation_rev, <- stable_sort_perm, <- Permutation_rev.
  - apply StronglySorted_rev, stable_sort_sorted.
  - intros d. rewrite filter_rev, stable_sort_filter, filter_rev.
    apply rev_involutive.
Qed.

Lemma sorted_nonempty (l : list A) (reverse : bool) :
  l <> [] -> sorted l key reverse <> [].
Proof.
  intros Hl Hs. apply Hl.
  assert (Permutation l (sorted l key reverse)) as P.
  { unfold sorted. destruct reverse.
    - now rewrite <- Permutation_rev, <- stable_sort_perm, <- Permutation_rev.
    - apply stable_sort_perm. }
  rewrite Hs in P. now apply Permutation_sym, Permutation_nil in P.
Qed.

End Sorting.

(* ===================================================================== *)
(** ** The ingestion loop *)
(* ===================================================================== *)

Section Ingestion.

Context `{ext : Externals}.

(** The loop over the entries appends [fetch_entries] to the list. *)
Lemma for_entries_fetch (url : pystr) (parsed : FeedParserDict)
    (todo : list Entry) (all_entries : list Story) :
  fst (for_entries url parsed todo all_entries) =
  all_entries ++ fetch_entries url parsed todo (List.length all_entries).
Proof.
  revert all_entries. induction todo as [|entry todo IH]; intros all_entries.
  - simpl. now rewrite app_nil_r.
  - simpl. destruct (story_of_entry url parsed _ entry) as [story|e].
    + rewrite IH, length_app, <- app_assoc. simpl.
      now rewrite Nat.add_1_r.
    + simpl. now rewrite app_nil_r.
Qed.

Lemma try_feed_fetch (url : pystr) (all_entries : list Story) :
  fst (try_feed url all_entries) =
  all_entries ++ fetch url (List.length all_entries).
Proof.
  unfold try_feed, fetch.
  destruct (feedparser_parse url) as [parsed|e].
  - apply for_entries_fetch.
  - simpl. now rewrite app_nil_r.
Qed.

(** One step of the loop over the sources, whatever the source does, as
    long as what it raises is an [Exception]. *)
Lemma for_urls_step (url : pystr) (urls : list pystr) (all_entries : list Story) :
  (forall e, snd (try_feed url all_entries) = Some e ->
             isinstance_Exception e = true) ->
  for_urls (url :: urls) all_entries =
  for_urls urls (all_entries ++ fetch url (List.length all_entries)).
Proof.
  intros He. simpl. rewrite <- try_feed_fetch.
  destruct (try_feed url all_entries) as [acc [e|]]; [|reflexivity].
  simpl in *. now rewrite (He e eq_refl).
Qed.

(** The loop over the sources ends when the sources raise nothing but
    instances of [Exception]. *)
Lemma for_urls_ends (urls : list pystr) (all_entries : list Story) :
  (forall url acc e, snd (try_feed url acc) = Some e ->
                     isinstance_Exception e = true) ->
  exists result, for_urls urls all_entries = Ok result.
Proof.
  intros He. revert all_entries.
  induction urls as [|url urls IH]; intros all_entries; [now eexists|].
  rewrite for_urls_step by apply He. apply IH.
Qed.

(** A run that ends has collected the discovery order. *)
Lemma for_urls_discovery (urls : list pystr) (all_entries result : list Story) :
  for_urls urls all_entries = Ok result ->
  result = all_entries ++ discovery urls (List.length all_entries).
Proof.
  revert all_entries. induction urls as [|url urls IH]; intros all_entries H.
  - simpl in *. injection H as <-. now rewrite app_nil_r.
  - simpl in H. pose proof (try_feed_fetch url all_entries) as F.
    destruct (try_feed url all_entries) as [acc [e|]]; simpl in F; subst acc.
    + destruct (isinstance_Exception e); [|discriminate].
      apply IH in H. rewrite H, length_app, <- app_assoc. reflexivity.
    + apply IH in H. rewrite H, length_app, <- app_assoc. reflexivity.
Qed.

Lemma list_getitem_ok {A} (l : list A) (i : Z) :
  (0 <= i < Z.of_nat (List.length l))%Z -> exists a, list_getitem l i = Ok a.
Proof.
  intros Hi. unfold list_getitem.
  assert ((i <? 0)%Z = false) as E0 by (apply Z.ltb_ge; lia).
  assert ((Z.of_nat (List.length l) <=? i)%Z = false) as En
    by (apply Z.leb_gt; lia).
  cbv zeta. rewrite E0, E0, En. simpl. destruct (nth_error l (Z.to_nat i)) as [a|] eqn:E.
  - now exists a.
  - apply nth_error_None in E. lia.
Qed.

(** With stories to show and an index that is not negative,
    [update_display] shows a story: it raises nothing, keeps the list and
    leaves a valid index. *)
Lemma update_display_shows (app : App) :
  stories app <> [] ->
  (0 <= current_index app)%Z ->
  exists app',
    update_display app = Ok app' /\
    stories app' = stories app /\
    current_index app' =
      (if (Z.of_nat (List.length (stories app)) <=? current_index app)%Z
       then 0%Z else current_index app) /\
    auto_timer app' = auto_timer app /\
    index_valid app'.
Proof.
  intros Hs Hi. unfold update_display.
  destruct (stories app) as [|s0 l] eqn:Es; [contradiction|].
  set (n := Z.of_nat (List.length (s0 :: l))).
  assert (0 < n)%Z as Hn by (subst n; simpl; lia).
  destruct (n <=? current_index app)%Z eqn:E;
    cbv zeta; cbn [stories current_index set_current_index]; rewrite Es.
  - destruct (list_getitem_ok (s0 :: l) 0%Z) as [story Hg]; [fold n; lia|].
    rewrite Hg. simpl. eexists. split; [reflexivity|].
    unfold index_valid. cbn. rewrite Es. repeat split; auto; fold n; lia.
  - apply Z.leb_gt in E.
    destruct (list_getitem_ok (s0 :: l) (current_index app)) as [story Hg];
      [fold n; lia|].
    rewrite Hg. simpl. eexists. split; [reflexivity|].
    unfold index_valid. cbn. rewrite Es. repeat split; auto; fold n; lia.
Qed.

Lemma update_display_empty (app : App) :
  stories app = [] -> update_display app = Ok app.
Proof. intros E. unfold update_display. now rewrite E. Qed.

(** What [load_feeds] does once the source list is read and the loop over
    the sources has ended. *)
Lemma load_feeds_collected (app : App) (lines : list pystr)
    (all_entries : list Story) :
  open_lines (feed_file app) = Ok lines ->
  for_urls (read_urls lines) [] = Ok all_entries ->
  load_feeds app =
  match all_entries with
  | _ :: _ =>
      update_display
        (set_current_index 0%Z (set_stories (sorted all_entries date true) app))
  | [] => Ok (update_title (py "No stories found.") app)
  end.
Proof. intros Hl Hu. unfold load_feeds. now rewrite Hl, Hu. Qed.

(** C3.  When the run collects at least one story, the list it publishes
    holds the collected stories by decreasing date, and the stories of
    one date are in the order of their discovery: the sources in the
    order of the source list, the stories of a source in the order of its
    entries. *)
Theorem load_feeds_sorted_stable (app : App) (lines : list pystr)
    (all_entries : list Story) :
  open_lines (feed_file app) = Ok lines ->
  for_urls (read_urls lines) [] = Ok all_entries ->
  all_entries <> [] ->
  exists app',
    load_feeds app = Ok app' /\
    all_entries = discovery (read_urls lines) 0 /\
    Permutation all_entries (stories app') /\
    StronglySorted (fun a b => date b <= date a)%Z (stories app') /\
    forall d, filter (fun s => date s =? d)%Z (stories app') =
              filter (fun s => date s =? d)%Z all_entries.
Proof.
  intros Hl Hu Hne. rewrite (load_feeds_collected _ _ _ Hl Hu).
  destruct all_entries as [|s0 l] eqn:Ea; [contradiction|]. rewrite <- Ea in *.
  destruct (update_display_shows
              (set_current_index 0%Z
                 (set_stories (sorted all_entries date true) app)))
    as (app' & Hd & Hst & _).
  - now apply sorted_nonempty.
  - simpl. lia.
  - exists app'. split; [exact Hd|].
    cbn [stories set_current_index set_stories] in Hst. rewrite Hst.
    split; [exact (for_urls_discovery _ _ _ Hu)|].
    apply sorted_reverse_spec.
Qed.

(** C4.  When the loop over the sources ends with nothing collected, the
    run leaves the stories and the index as they were and writes
    [No stories found.] in the title. *)
Theorem load_feeds_nothing_found (app : App) (lines : list pystr) :
  open_lines (feed_file app) = Ok lines ->
  for_urls (read_urls lines) [] = Ok [] ->
  exists app',
    load_feeds app = Ok app' /\
    stories app' = stories app /\
    current_index app' = current_index app /\
    title_widget app' = py "No stories found.".
Proof.
  intros Hl Hu. rewrite (load_feeds_collected _ _ _ Hl Hu).
  eexists. split; [reflexivity|]. repeat split.
Qed.


(** Moving the index to [i] modulo the number of stories, then showing
    and resetting the timer, as both navigation handlers do. *)
Lemma move_shows (app : App) (i : Z) :
  stories app <> [] ->
  exists app',
    (app1 <- update_display
               (set_current_index
                  (i mod Z.of_nat (List.length (stories app)))%Z app) ;;
     Ok (reset_auto_timer app1)) = Ok app' /\ index_valid app'.
Proof.
  intros Hs.
  assert (0 < Z.of_nat (List.length (stories app)))%Z as Hn
    by (destruct (stories app); [contradiction | simpl; lia]).
  pose proof (Z.mod_pos_bound i _ Hn) as Hb.
  destruct (update_display_shows
              (set_current_index
                 (i mod Z.of_nat (List.length (stories app)))%Z app))
    as (app1 & Hd & Hst & Hci & _ & Hv1); [exact Hs | simpl; lia |].
  rewrite Hd. simpl. eexists. split; [reflexivity|].
  unfold reset_auto_timer. destruct (auto_timer app1); exact Hv1.
Qed.

(** C7.  Every operation keeps the index valid, [refresh_feeds] and the
    worker it starts included; [load_feeds] either leaves the stories and
    the index as they were or publishes a list that is not empty with the
    index at 0; with no stories, the navigation and [update_display]
    change nothing. *)
Theorem rotation_invariant (app : App) :
  index_valid app ->
  (forall app', load_feeds app = Ok app' ->
     index_valid app' /\
     ((stories app' = stories app /\ current_index app' = current_index app)
      \/ (stories app' <> [] /\ current_index app' = 0%Z))) /\
  (index_valid (fst (refresh_feeds app)) /\
   forall a app',
     index_valid a -> snd (refresh_feeds app) a = Ok app' ->
     index_valid app') /\
  (exists app', update_display app = Ok app' /\ index_valid app') /\
  (exists app', action_next_story app = Ok app' /\ index_valid app') /\
  (exists app', action_prev_story app = Ok app' /\ index_valid app') /\
  (stories app = [] ->
     action_next_story app = Ok app /\
     action_prev_story app = Ok app /\
     update_display app = Ok app).
Proof.
  intros Hv.
  assert (forall a app', index_valid a -> load_feeds a = Ok app' ->
            index_valid app' /\
            ((stories app' = stories a /\ current_index app' = current_index a)
             \/ (stories app' <> [] /\ current_index app' = 0%Z))) as Hload.
  { intros a app' Ha Hl.
    destruct (open_lines (feed_file a)) as [lines|e] eqn:El.
    - destruct (for_urls (read_urls lines) []) as [all_entries|e] eqn:Eu.
      + rewrite (load_feeds_collected _ _ _ El Eu) in Hl.
        destruct all_entries as [|s0 l] eqn:Ea.
        * injection Hl as <-. split; [exact Ha | now left].
        * rewrite <- Ea in *.
          assert (sorted all_entries date true <> []) as Hne
            by (apply sorted_nonempty; rewrite Ea; discriminate).
          destruct (update_display_shows
                      (set_current_index 0%Z
                         (set_stories (sorted all_entries date true) a)))
            as (app'' & Hd & Hst & Hci & _ & Hv');
            [exact Hne | simpl; lia |].
          rewrite Hd in Hl. injection Hl as <-. split; [exact Hv'|].
          right. cbn [stories current_index set_current_index set_stories]
            in Hst, Hci.
          rewrite Hst. split; [exact Hne|]. rewrite Hci.
          destruct (Z.of_nat (List.length (sorted all_entries date true)) <=? 0)%Z;
            reflexivity.
      + unfold load_feeds in Hl. rewrite El, Eu in Hl. discriminate.
    - unfold load_feeds in Hl. rewrite El in Hl.
      destruct (isinstance_FileNotFoundError e); [|discriminate].
      injection Hl as <-. split; [exact Ha | now left]. }
  split; [|split; [|split; [|split; [|split]]]].
  - intros app'. now apply Hload.
  - split; [exact Hv|]. intros a app' Ha Hr. simpl in Hr.
    now apply (Hload a).
  - destruct (stories app) as [|s0 l] eqn:Es.
    + exists app. split; [now apply update_display_empty | exact Hv].
    + destruct (update_display_shows app) as (app' & Hd & _ & _ & _ & Hv');
        [rewrite Es; discriminate | |eauto].
      apply Hv. rewrite Es. discriminate.
  - unfold action_next_story. destruct (stories app) as [|s0 l] eqn:Es.
    + exists app. split; [reflexivity | exact Hv].
    + rewrite <- Es. apply move_shows. rewrite Es. discriminate.
  - unfold action_prev_story. destruct (stories app) as [|s0 l] eqn:Es.
    + exists app. split; [reflexivity | exact Hv].
    + rewrite <- Es. apply move_shows. rewrite Es. discriminate.
  - intros Es. split; [|split].
    + unfold action_next_story. now rewrite Es.
    + unfold action_prev_story. now rewrite Es.
    + now apply update_display_empty.
Qed.

(** C8, as the code has it.  When the source list does not exist
    ([FileNotFoundError]), the run raises nothing: it leaves the stories
    and the index as a run over an empty source list leaves them, and
    reports [Error: feeds.txt not found] in the title. *)
Theorem load_feeds_file_not_found (app : App) :
  open_lines (feed_file app) = Raise FileNotFoundError ->
  exists app' app0,
    load_feeds app = Ok app' /\
    @load_feeds (with_lines ext []) app = Ok app0 /\
    stories app' = stories app0 /\
    current_index app' = current_index app0 /\
    stories app' = stories app /\
    current_index app' = current_index app /\
    title_widget app' = py "Error: feeds.txt not found".
Proof.
  intros Hf. unfold load_feeds. rewrite Hf. simpl.
  eexists. eexists. repeat split.
Qed.

End Ingestion.

(* ===================================================================== *)
(** ** The theorems on the small world *)
(* ===================================================================== *)

(** C3 on [feeds.txt]: [A] gives three stories, [B] is unreachable, [C]
    gives one story before its broken entry. *)
Lemma load_feeds_sorted_stable_witness :
  exists app',
    @load_feeds Fixture.world (initial_app (py "feeds.txt")) = Ok app' /\
    [Fixture.story_x; Fixture.story_y; Fixture.story_z; Fixture.story_c1] =
      @discovery Fixture.world
        (read_urls [py "A" ++ Fixture.NL; Fixture.NL;
                    py "  B  " ++ Fixture.NL; py "C"]) 0 /\
    Permutation
      [Fixture.story_x; Fixture.story_y; Fixture.story_z; Fixture.story_c1]
      (stories app') /\
    StronglySorted (fun a b => date b <= date a)%Z (stories app') /\
    forall d,
      filter (fun s => date s =? d)%Z (stories app') =
      filter (fun s => date s =? d)%Z
        [Fixture.story_x; Fixture.story_y; Fixture.story_z; Fixture.story_c1].
Proof.
  apply (@load_feeds_sorted_stable Fixture.world (initial_app (py "feeds.txt"))
           [py "A" ++ Fixture.NL; Fixture.NL; py "  B  " ++ Fixture.NL; py "C"]
           [Fixture.story_x; Fixture.story_y; Fixture.story_z; Fixture.story_c1]).
  - reflexivity.
  - reflexivity.
  - discriminate.
Defined.

(** The list that run publishes. *)
Example load_feeds_feeds_txt :
  exists app',
    @load_feeds Fixture.world (initial_app (py "feeds.txt")) = Ok app' /\
    stories app' =
      [Fixture.story_y; Fixture.story_c1; Fixture.story_x; Fixture.story_z] /\
    current_index app' = 0%Z /\
    title_widget app' = py "Y".
Proof. eexists. split; [reflexivity|]. repeat split. Qed.

(** C4 on [down.txt]: none of its two sources answers. *)
Lemma load_feeds_nothing_found_witness :
  exists app',
    @load_feeds Fixture.world (Fixture.populated (py "down.txt")) = Ok app' /\
    stories app' = stories (Fixture.populated (py "down.txt")) /\
    current_index app' = current_index (Fixture.populated (py "down.txt")) /\
    title_widget app' = py "No stories found.".
Proof.
  apply (@load_feeds_nothing_found Fixture.world
           (Fixture.populated (py "down.txt"))
           [py "B" ++ Fixture.NL; py "D" ++ Fixture.NL]).
  - reflexivity.
  - reflexivity.
Defined.



(** C7 on an application that shows the second of two stories. *)
Lemma rotation_invariant_witness :
  (forall app',
     @load_feeds Fixture.world (Fixture.populated (py "feeds.txt")) = Ok app' ->
     index_valid app' /\
     ((stories app' = stories (Fixture.populated (py "feeds.txt")) /\
       current_index app' = current_index (Fixture.populated (py "feeds.txt")))
      \/ (stories app' <> [] /\ current_index app' = 0%Z))) /\
  (index_valid
     (fst (@refresh_feeds Fixture.world (Fixture.populated (py "feeds.txt")))) /\
   forall a app',
     index_valid a ->
     snd (@refresh_feeds Fixture.world (Fixture.populated (py "feeds.txt"))) a
       = Ok app' ->
     index_valid app') /\
  (exists app',
     @update_display Fixture.world (Fixture.populated (py "feeds.txt")) = Ok app' /\
     index_valid app') /\
  (exists app',
     @action_next_story Fixture.world (Fixture.populated (py "feeds.txt")) = Ok app' /\
     index_valid app') /\
  (exists app',
     @action_prev_story Fixture.world (Fixture.populated (py "feeds.txt")) = Ok app' /\
     index_valid app') /\
  (stories (Fixture.populated (py "feeds.txt")) = [] ->
     @action_next_story Fixture.world (Fixture.populated (py "feeds.txt"))
       = Ok (Fixture.populated (py "feeds.txt")) /\
     @action_prev_story Fixture.world (Fixture.populated (py "feeds.txt"))
       = Ok (Fixture.populated (py "feeds.txt")) /\
     @update_display Fixture.world (Fixture.populated (py "feeds.txt"))
       = Ok (Fixture.populated (py "feeds.txt"))).
Proof.
  apply (@rotation_invariant Fixture.world (Fixture.populated (py "feeds.txt"))).
  unfold index_valid. simpl. lia.
Defined.

(** Navigation wraps around in both directions. *)
Example action_next_story_wraps :
  exists app',
    @action_next_story Fixture.world (Fixture.populated (py "feeds.txt")) = Ok app' /\
    current_index app' = 0%Z /\ title_widget app' = py "Y" /\
    auto_timer app' = Some 0%Z.
Proof. eexists. split; [reflexivity|]. repeat split. Qed.

Example action_prev_story_wraps :
  exists app',
    @action_prev_story Fixture.world
      (set_current_index 0%Z (Fixture.populated (py "feeds.txt"))) = Ok app' /\
    current_index app' = 1%Z /\ title_widget app' = py "X".
Proof. eexists. split; [reflexivity|]. repeat split. Qed.

(** C8 on a file that does not exist. *)
Lemma load_feeds_file_not_found_witness :
  exists app' app0,
    @load_feeds Fixture.world (Fixture.populated (py "missing.txt")) = Ok app' /\
    @load_feeds (with_lines Fixture.world [])
      (Fixture.populated (py "missing.txt")) = Ok app0 /\
    stories app' = stories app0 /\
    current_index app' = current_index app0 /\
    stories app' = stories (Fixture.populated (py "missing.txt")) /\
    current_index app' = current_index (Fixture.populated (py "missing.txt")) /\
    title_widget app' = py "Error: feeds.txt not found".
Proof.
  apply (@load_feeds_file_not_found Fixture.world
           (Fixture.populated (py "missing.txt"))).
  reflexivity.
Defined.

(** C8 as stated fails: a source list that exists and cannot be opened
    makes the run raise. *)
Lemma load_feeds_unreadable_counterexample :
  @open_lines Fixture.world (py "locked.txt") = Raise PermissionError /\
  @load_feeds Fixture.world (Fixture.populated (py "locked.txt"))
  = Raise PermissionError.
Proof. split; reflexivity. Qed.

(* ===================================================================== *)
(** ** Further properties: the text that clean_html returns *)
(* ===================================================================== *)

Section NormalizedText.

Lemma collapsed_only_spaces (y : pystr) (c : pychar) :
  collapsed y = true -> In c y -> isspace c = true -> c = SP.
Proof.
  induction y as [|d y IH]; intros Hc Hin Hs; [contradiction|].
  destruct Hin as [<-|Hin].
  - simpl in Hc. rewrite Hs in Hc.
    apply andb_true_iff in Hc as [Hc _]. apply andb_true_iff in Hc as [Hc _].
    now apply N.eqb_eq in Hc.
  - apply IH; [exact (collapsed_tail _ _ Hc) | exact Hin | exact Hs].
Qed.

Lemma collapsed_no_double_space (l1 l2 : pystr) :
  collapsed (l1 ++ SP :: SP :: l2) = false.
Proof.
  induction l1 as [|d l1 IH].
  - reflexivity.
  - change (collapsed ((d :: l1) ++ SP :: SP :: l2)) with
      ((if isspace d
        then (d =? SP)%N && match l1 ++ SP :: SP :: l2 with
                            | [] => true
                            | e :: _ => negb (isspace e)
                            end
        else true) && collapsed (l1 ++ SP :: SP :: l2)).
    rewrite IH. apply andb_false_r.
Qed.

Lemma dropwhile_length (s : pystr) :
  (List.length (dropwhile isspace s) <= List.length s)%nat.
Proof.
  induction s as [|c s IH]; simpl; [lia|].
  destruct (isspace c); simpl; lia.
Qed.

Lemma trim_right_length (s : pystr) :
  (List.length (trim_right s) <= List.length s)%nat.
Proof.
  rewrite <- rstrip_trim_right. unfold rstrip.
  rewrite length_rev, <- (length_rev s). apply dropwhile_length.
Qed.

Lemma trim_right_ends_in_space (l : pystr) :
  trim_right (l ++ [SP]) = trim_right l.
Proof.
  rewrite <- !rstrip_trim_right. unfold rstrip.
  rewrite rev_app_distr. reflexivity.
Qed.

(** A collapsed text that [strip] leaves alone is normalized. *)
Lemma collapsed_stripped_normalized (y : pystr) :
  collapsed y = true ->
  dropwhile isspace y = y ->
  trim_right y = y ->
  normalized_text y.
Proof.
  intros Hc Hl Hr. repeat split.
  - intros c. now apply collapsed_only_spaces.
  - intros l1 l2 ->. now rewrite collapsed_no_double_space in Hc.
  - intros l ->. simpl in Hl. apply (f_equal (@List.length _)) in Hl.
    pose proof (dropwhile_length l). simpl in Hl. lia.
  - intros l ->. rewrite trim_right_ends_in_space in Hr.
    apply (f_equal (@List.length _)) in Hr. rewrite length_app in Hr.
    pose proof (trim_right_length l). simpl in Hr. lia.
Qed.

Lemma flatten_normalized (s : pystr) : normalized_text (flatten s).
Proof.
  unfold flatten. rewrite strip_trim. unfold trim.
  apply collapsed_stripped_normalized.
  - apply collapsed_trim_right, collapsed_dropwhile, re_sub_spaces_collapsed.
  - apply dropwhile_trim_right, dropwhile_idempotent.
  - apply trim_right_idempotent.
Qed.

Lemma fallback_normalized : normalized_text fallback.
Proof.
  apply collapsed_stripped_normalized; reflexivity.
Qed.

Lemma clean_html_result_normalized
    (parser : pystr -> result PageElement) (raw : pyval) (y : pystr) :
  clean_html parser raw = Ok y -> normalized_text y.
Proof.
  unfold clean_html. destruct (truthy raw); simpl.
  - destruct (parser (markup_of raw)); [|discriminate]. simpl.
    intros [= <-]. apply flatten_normalized.
  - intros [= <-]. apply fallback_normalized.
Qed.

(** X1.  Whatever the content and the parser, a string that clean_html
    returns holds no whitespace but single spaces: no newline, no tab, no
    two spaces in a row, no space at either end. *)
Theorem clean_html_returns_normalized_text
    (BeautifulSoup : pystr -> result PageElement) (html_content : pyval)
    (flat_text : pystr) :
  clean_html BeautifulSoup html_content = Ok flat_text ->
  normalized_text flat_text /\
  ~ In 10%N flat_text /\ ~ In 9%N flat_text /\ ~ In 13%N flat_text.
Proof.
  intros Hc. pose proof (clean_html_result_normalized _ _ _ Hc) as Hn.
  split; [exact Hn|]. destruct Hn as (Hs & _).
  repeat split; intros Hin; apply Hs in Hin; try reflexivity; discriminate.
Qed.

End NormalizedText.

Lemma clean_html_returns_normalized_text_witness :
  normalized_text (py "plain text") /\
  ~ In 10%N (py "plain text") /\ ~ In 9%N (py "plain text") /\
  ~ In 13%N (py "plain text").
Proof.
  apply (clean_html_returns_normalized_text simple_soup
           (PyStr ([9; 10]%N ++ py "plain" ++ [13; 10; 160; 32]%N ++ py "text "))).  
  reflexivity.
Defined.

(* ===================================================================== *)
(** ** Further properties: the source list and the entries *)
(* ===================================================================== *)

Section SourcesAndEntries.

Context `{ext : Externals}.

Lemma pystr_eqb_eq (a b : pystr) : pystr_eqb a b = true <-> a = b.
Proof.
  unfold pystr_eqb. destruct (list_eq_dec N.eq_dec a b); split; congruence.
Qed.

Lemma dropwhile_head (s u : pystr) (c : pychar) :
  dropwhile isspace s = c :: u -> isspace c = false.
Proof.
  induction s as [|d s IH]; simpl; [discriminate|].
  destruct (isspace d) eqn:E; [exact IH | congruence].
Qed.

Lemma strip_head (s l : pystr) (c : pychar) :
  strip s = c :: l -> isspace c = false.
Proof.
  rewrite strip_trim. unfold trim. intros Ht.
  destruct (trim_right_head _ _ _ Ht) as [s' Hd].
  exact (dropwhile_head _ _ _ Hd).
Qed.

Lemma strip_last (s l : pystr) (c : pychar) :
  strip s = l ++ [c] -> isspace c = false.
Proof.
  unfold strip, rstrip. intros Hr.
  apply (f_equal (@rev _)) in Hr.
  rewrite rev_involutive, rev_app_distr in Hr. simpl in Hr.
  exact (dropwhile_head _ _ _ Hr).
Qed.

Lemma trim_right_nil_all (s : pystr) :
  trim_right s = [] -> forallb isspace s = true.
Proof.
  induction s as [|c s IH]; [reflexivity|]. simpl.
  destruct (trim_right s) as [|d u]; [|discriminate].
  destruct (isspace c); [intros _; now apply IH | discriminate].
Qed.

(** [strip] gives the empty string on blank lines only. *)
Lemma strip_nil_blank (s : pystr) :
  pystr_eqb (strip s) [] = forallb isspace s.
Proof.
  destruct (forallb isspace s) eqn:Hb.
  - apply pystr_eqb_eq. rewrite strip_trim. unfold trim.
    now rewrite (dropwhile_all _ Hb).
  - destruct (pystr_eqb (strip s) []) eqn:He; [|reflexivity].
    apply pystr_eqb_eq in He. rewrite strip_trim in He. unfold trim in He.
    apply trim_right_nil_all in He.
    destruct (dropwhile isspace s) as [|c u] eqn:Hd.
    + apply dropwhile_nil_all in Hd. congruence.
    + apply dropwhile_head in Hd. simpl in He. rewrite Hd in He.
      discriminate.
Qed.

(** X2.  The addresses read from the source list, line by line: nothing
    for a line that is blank (empty or whitespace only), the stripped
    line, once, for any other line, in the order of the lines.  Hence no
    address is empty and none starts or ends with whitespace. *)
Theorem read_urls_stripped_lines (line : pystr) (lines : list pystr) :
  read_urls [] = [] /\
  read_urls (line :: lines) =
    (if forallb isspace line then read_urls lines
     else strip line :: read_urls lines) /\
  (forall url c l, In url (read_urls lines) ->
     url <> [] /\
     (url = c :: l -> isspace c = false) /\
     (url = l ++ [c] -> isspace c = false)).
Proof.
  split; [reflexivity|]. split.
  - unfold read_urls. cbn [filter]. rewrite strip_nil_blank.
    destruct (forallb isspace line); reflexivity.
  - intros url c l Hu. unfold read_urls in Hu. apply in_map_iff in Hu.
    destruct Hu as (src & <- & Hf). apply filter_In in Hf as [_ Hne].
    split; [|split].
    + intros He. apply pystr_eqb_eq in He. rewrite He in Hne.
      discriminate Hne.
    + apply strip_head.
    + apply strip_last.
Qed.

Lemma list_getitem_first {A} (l : list A) :
  list_getitem l 0 =
  match l with
  | [] => Raise IndexError
  | a :: _ => Ok a
  end.
Proof.
  destruct l as [|a l]; [reflexivity|].
  unfold list_getitem. cbv zeta.
  change (0 <? 0)%Z with false. cbv iota.
  assert ((Z.of_nat (List.length (a :: l)) <=? 0)%Z = false) as ->
    by (apply Z.leb_gt; simpl; lia).
  reflexivity.
Qed.

(** What line 114 evaluates to, by the shape of the entry. *)
Lemma raw_content_of_cases (entry : Entry) :
  raw_content_of entry =
  match entry_content entry with
  | None => Ok (dict_get (entry_summary entry) (PyStr []))
  | Some [] => Raise IndexError
  | Some (first :: _) => dict_getitem (value first)
  end.
Proof.
  unfold raw_content_of. rewrite list_getitem_first.
  destruct (entry_content entry) as [[|first rest]|]; reflexivity.
Qed.

(** X3.  The ways in which building the story of an entry can fail: an
    empty content list, a first content item without a value, markup that
    the parser rejects (the parser is called on content that is not
    empty only), a date that [time.mktime] or [datetime.fromtimestamp]
    rejects.  Nothing else raises. *)
Theorem story_of_entry_failures (url : pystr) (parsed : FeedParserDict)
    (n : nat) (entry : Entry) (e : exception) :
  story_of_entry url parsed n entry = Raise e ->
  (entry_content entry = Some [] /\ e = IndexError) \/
  (exists first rest,
     entry_content entry = Some (first :: rest) /\ value first = None /\
     e = KeyError) \/
  (exists c markup,
     raw_content_of entry = Ok (PyStr (c :: markup)) /\
     BeautifulSoup (c :: markup) = Raise e) \/
  (exists t,
     or_else (published_parsed entry) (updated_parsed entry) = Some t /\
     (time_mktime t = Raise e \/
      exists seconds,
        time_mktime t = Ok seconds /\
        datetime_fromtimestamp seconds = Raise e)).
Proof.
  unfold story_of_entry. rewrite raw_content_of_cases.
  destruct (entry_content entry) as [[|first rest]|] eqn:Ec; simpl.
  - intros [= <-]. now left.
  - destruct (value first) as [v|] eqn:Ev; simpl.
    + destruct (clean_html BeautifulSoup v) as [text|e1] eqn:Eh; simpl.
      * destruct (or_else (published_parsed entry) (updated_parsed entry))
          as [t|] eqn:Ed; [|discriminate].
        destruct (time_mktime t) as [seconds|e2] eqn:Em; simpl.
        -- destruct (datetime_fromtimestamp seconds) as [d|e3] eqn:Ef;
             [discriminate|]. simpl. intros [= <-].
           right. right. right. exists t. split; [reflexivity|]. right. eauto.
        -- intros [= <-]. right. right. right. exists t. now split; [|left].
      * intros [= <-]. right. right. left.
        unfold clean_html in Eh. destruct v as [|[|c markup]]; try discriminate.
        simpl in Eh. exists c, markup. split; [reflexivity|].
        destruct (BeautifulSoup (c :: markup)); simpl in Eh;
          [discriminate | congruence].
    + intros [= <-]. right. left. exists first, rest. now repeat split.
  - destruct (clean_html BeautifulSoup (dict_get (entry_summary entry) (PyStr [])))
      as [text|e1] eqn:Eh; simpl.
    + destruct (or_else (published_parsed entry) (updated_parsed entry))
        as [t|] eqn:Ed; [|discriminate].
      destruct (time_mktime t) as [seconds|e2] eqn:Em; simpl.
      * destruct (datetime_fromtimestamp seconds) as [d|e3] eqn:Ef;
          [discriminate|]. simpl. intros [= <-].
        right. right. right. exists t. split; [reflexivity|]. right. eauto.
      * intros [= <-]. right. right. right. exists t. now split; [|left].
    + intros [= <-]. right. right. left.
      unfold clean_html in Eh.
      destruct (dict_get (entry_summary entry) (PyStr [])) as [|[|c markup]];
        try discriminate.
      simpl in Eh. exists c, markup. split; [reflexivity|].
      destruct (BeautifulSoup (c :: markup)); simpl in Eh;
          [discriminate | congruence].
Qed.

(** X4.  An entry with no content list, no summary to speak of and no
    date always gives a story: the fixed body, the clock as date, the
    title and the source with their defaults.  The parser and the date
    conversions are not called. *)
Theorem story_of_entry_defaults (url : pystr) (parsed : FeedParserDict)
    (n : nat) (entry : Entry) :
  entry_content entry = None ->
  truthy (dict_get (entry_summary entry) (PyStr [])) = false ->
  published_parsed entry = None ->
  updated_parsed entry = None ->
  story_of_entry url parsed n entry =
  Ok {| title := match entry_title entry with
                 | Some t => t
                 | None => py "No Title"
                 end;
        date := datetime_now n;
        source := match feed_title parsed with
                  | Some t => t
                  | None => url
                  end;
        body := py "No content available." |}.
Proof.
  intros Hc Hs Hp Hu. unfold story_of_entry.
  rewrite raw_content_of_cases, Hc. simpl.
  unfold clean_html. rewrite Hs, Hp, Hu. reflexivity.
Qed.

End SourcesAndEntries.

Lemma story_of_entry_failures_witness :
  (entry_content Fixture.entry_c2 = Some [] /\ IndexError = IndexError) \/
  (exists first rest,
     entry_content Fixture.entry_c2 = Some (first :: rest) /\
     value first = None /\ IndexError = KeyError) \/
  (exists c markup,
     raw_content_of Fixture.entry_c2 = Ok (PyStr (c :: markup)) /\
     @BeautifulSoup Fixture.world (c :: markup) = Raise IndexError) \/
  (exists t,
     or_else (published_parsed Fixture.entry_c2)
       (updated_parsed Fixture.entry_c2) = Some t /\
     (@time_mktime Fixture.world t = Raise IndexError \/
      exists seconds,
        @time_mktime Fixture.world t = Ok seconds /\
        @datetime_fromtimestamp Fixture.world seconds = Raise IndexError)).
Proof.
  apply (@story_of_entry_failures Fixture.world (py "C")
           {| feed_title := None; entries := [] |} 0 Fixture.entry_c2 IndexError).
  reflexivity.
Defined.

Lemma story_of_entry_defaults_witness :
  @story_of_entry Fixture.world (py "A")
    {| feed_title := Some (py "Feed A"); entries := [] |} 2
    {| entry_content := None; entry_summary := Some PyNone;
       entry_title := None; published_parsed := None;
       updated_parsed := None |} =
  Ok {| title := py "No Title";
        date := @datetime_now Fixture.world 2;
        source := py "Feed A";
        body := py "No content available." |}.
Proof.
  apply (@story_of_entry_defaults Fixture.world (py "A")
           {| feed_title := Some (py "Feed A"); entries := [] |} 2
           {| entry_content := None; entry_summary := Some PyNone;
              entry_title := None; published_parsed := None;
              updated_parsed := None |}); reflexivity.
Defined.

(* ===================================================================== *)
(** ** Further properties: the display and the rotation *)
(* ===================================================================== *)

Section Rotation.

Context `{ext : Externals}.

(** [l[i]] succeeds exactly for [-len(l) <= i < len(l)], and then
    returns the element at [i] modulo the length. *)
Lemma list_getitem_cases {A} (l : list A) (i : Z) :
  let n := Z.of_nat (List.length l) in
  ((- n <= i < n)%Z ->
     exists a, list_getitem l i = Ok a /\
               nth_error l (Z.to_nat (i mod n)) = Some a) /\
  (~ (- n <= i < n)%Z -> list_getitem l i = Raise IndexError).
Proof.
  intros n. unfold list_getitem. fold n. cbv zeta.
  destruct (i <? 0)%Z eqn:Ei.
  - apply Z.ltb_lt in Ei. split.
    + intros Hi.
      assert ((i + n <? 0)%Z = false) as -> by (apply Z.ltb_ge; lia).
      assert ((n <=? i + n)%Z = false) as -> by (apply Z.leb_gt; lia).
      simpl.
      assert (i mod n = i + n)%Z as ->.
      { symmetry. apply (Z.mod_unique i n (-1) (i + n)); lia. }
      destruct (nth_error l (Z.to_nat (i + n))) as [a|] eqn:E;
        [now exists a|].
      apply nth_error_None in E. lia.
    + intros Hi.
      assert ((i + n <? 0)%Z = true) as -> by (apply Z.ltb_lt; lia).
      reflexivity.
  - rewrite Ei. apply Z.ltb_ge in Ei. split.
    + intros Hi.
      assert ((n <=? i)%Z = false) as -> by (apply Z.leb_gt; lia).
      rewrite Z.mod_small by lia. simpl.
      destruct (nth_error l (Z.to_nat i)) as [a|] eqn:E; [now exists a|].
      apply nth_error_None in E. lia.
    + intros Hi.
      assert ((n <=? i)%Z = true) as -> by (apply Z.leb_le; lia).
      reflexivity.
Qed.

(** [update_display] on a list that is not empty: the index is first
    brought back to 0 when it is past the end, then the story at the
    index is shown. *)
Lemma update_display_cases (app : App) :
  stories app <> [] ->
  let n := Z.of_nat (List.length (stories app)) in
  let app0 := if (n <=? current_index app)%Z
              then set_current_index 0%Z app else app in
  update_display app =
    (story <- list_getitem (stories app) (current_index app0) ;;
     Ok (show_story story app0)).
Proof.
  intros Hs. unfold update_display, show_story.
  destruct (stories app) as [|s0 l] eqn:Es; [contradiction|].
  cbv zeta.
  destruct (Z.of_nat (List.length (s0 :: l)) <=? current_index app)%Z;
    cbn [stories set_current_index]; rewrite Es; reflexivity.
Qed.

(** X5.  [update_display] raises exactly when there are stories and the
    index is below minus their number, and then it raises [IndexError]:
    an index past the end is reset, a negative index down to minus the
    length counts from the end. *)
Theorem update_display_raises (app : App) (e : exception) :
  update_display app = Raise e <->
  stories app <> [] /\
  (current_index app < - Z.of_nat (List.length (stories app)))%Z /\
  e = IndexError.
Proof.
  destruct (stories app) as [|s0 l] eqn:Es.
  - rewrite update_display_empty by exact Es. split; [discriminate|].
    intros (H & _). contradiction.
  - assert (stories app <> []) as Hs by (rewrite Es; discriminate).
    rewrite (update_display_cases app Hs). cbv zeta. rewrite Es.
    set (n := Z.of_nat (List.length (s0 :: l))).
    assert (0 < n)%Z as Hn by (subst n; simpl; lia).
    destruct (n <=? current_index app)%Z eqn:E.
    + apply Z.leb_le in E. cbn [current_index set_current_index].
      destruct (list_getitem_cases (s0 :: l) 0%Z) as [Hok _]. fold n in Hok.
      clearbody n. destruct Hok as (a & -> & _); [lia|]. simpl.
      split; [discriminate|]. intros (_ & H & _). lia.
    + apply Z.leb_gt in E.
      destruct (list_getitem_cases (s0 :: l) (current_index app))
        as [Hok Hko]. fold n in Hok, Hko. clearbody n.
      destruct (Z_lt_dec (current_index app) (- n)) as [Hlt|Hge].
      * rewrite Hko by lia. split.
        -- intros [= <-]. repeat split; [discriminate | exact Hlt].
        -- intros (_ & _ & ->). reflexivity.
      * destruct Hok as (a & -> & _); [lia|]. simpl.
        split; [discriminate|]. intros (_ & H & _). lia.
Qed.

(** X6.  When [update_display] returns with stories to show, the widgets
    show the story at the index it leaves (counted from the end when the
    index is negative): its title, its source and date, its body, the
    scroll at the top.  The list is untouched, and the index changes only
    when it was past the end, to 0. *)
Theorem update_display_shows_current (app app' : App) :
  stories app <> [] ->
  update_display app = Ok app' ->
  stories app' = stories app /\
  (current_index app' = current_index app \/
   (Z.of_nat (List.length (stories app)) <= current_index app /\
    current_index app' = 0)%Z) /\
  exists story,
    nth_error (stories app')
      (Z.to_nat (current_index app' mod Z.of_nat (List.length (stories app'))))
      = Some story /\
    title_widget app' = title story /\
    meta_widget app' = source story ++ py " | " ++ strftime (date story) /\
    body_widget app' = body story /\
    scroll_y app' = 0%Z.
Proof.
  intros Hs Hd. rewrite (update_display_cases app Hs) in Hd. cbv zeta in Hd.
  assert (0 < Z.of_nat (List.length (stories app)))%Z as Hn
    by (destruct (stories app); [contradiction | simpl; lia]).
  destruct (Z.of_nat (List.length (stories app)) <=? current_index app)%Z eqn:E.
  - apply Z.leb_le in E. cbn [current_index set_current_index] in Hd.
    destruct (list_getitem_cases (stories app) 0%Z) as [Hok _].
    cbv zeta in Hok. destruct Hok as (story & Hg & Hnth); [lia|].
    rewrite Hg in Hd. simpl in Hd. injection Hd as <-.
    split; [reflexivity|]. split; [right; now split|].
    exists story. cbn. repeat split. exact Hnth.
  - apply Z.leb_gt in E.
    destruct (list_getitem_cases (stories app) (current_index app))
      as [Hok Hko]. cbv zeta in Hok, Hko.
    destruct (Z_lt_dec (current_index app)
                (- Z.of_nat (List.length (stories app)))) as [Hlt|Hge].
    + rewrite Hko in Hd by lia. discriminate.
    + destruct Hok as (story & Hg & Hnth); [lia|].
      rewrite Hg in Hd. simpl in Hd. injection Hd as <-.
      split; [reflexivity|]. split; [now left|].
      exists story. cbn. repeat split. exact Hnth.
Qed.

(** X7.  Showing twice is showing once. *)
Theorem update_display_idempotent (app : App) :
  (app' <- update_display app ;; update_display app') = update_display app.
Proof.
  destruct (stories app) as [|s0 l] eqn:Es.
  - rewrite (update_display_empty _ Es). simpl.
    now apply update_display_empty.
  - assert (stories app <> []) as Hs by (rewrite Es; discriminate).
    assert (0 < Z.of_nat (List.length (stories app)))%Z as Hn
      by (rewrite Es; simpl; lia).
    assert (forall a story,
              stories a = stories app ->
              (0 <= current_index a < Z.of_nat (List.length (stories app)))%Z
              \/ (current_index a < 0)%Z ->
              list_getitem (stories app) (current_index a) = Ok story ->
              update_display (show_story story a) = Ok (show_story story a))
      as Hagain.
    { intros a story Ha Hi Hg.
      rewrite update_display_cases by (cbn; rewrite Ha; exact Hs).
      cbv zeta. cbn [stories current_index show_story scroll_home update_body
                       update_meta update_title].
      rewrite Ha.
      assert ((Z.of_nat (List.length (stories app)) <=? current_index a)%Z
              = false) as -> by (apply Z.leb_gt; lia).
      cbn [stories current_index show_story scroll_home update_body
             update_meta update_title].
      rewrite Hg. reflexivity. }
    rewrite (update_display_cases app Hs). cbv zeta. clear Es.
    destruct (Z.of_nat (List.length (stories app)) <=? current_index app)%Z
      eqn:E.
    + cbn [current_index set_current_index].
      destruct (list_getitem (stories app) 0) as [story|e] eqn:Eg;
        [|reflexivity].
      simpl. apply Hagain; [reflexivity | left; simpl; lia | exact Eg].
    + apply Z.leb_gt in E.
      destruct (list_getitem (stories app) (current_index app))
        as [story|e] eqn:Eg; [|reflexivity].
      simpl. apply Hagain; [reflexivity | lia | exact Eg].
Qed.

End Rotation.

Lemma update_display_raises_witness :
  @update_display Fixture.world
    (set_current_index (-3)%Z (Fixture.populated (py "feeds.txt")))
  = Raise IndexError.
Proof.
  apply (@update_display_raises Fixture.world
           (set_current_index (-3)%Z (Fixture.populated (py "feeds.txt")))
           IndexError).
  split; [discriminate|]. split; [simpl; lia | reflexivity].
Defined.

Lemma update_display_shows_current_witness :
  stories (show_story (ext := Fixture.world) Fixture.story_x
             (set_current_index (-1)%Z (Fixture.populated (py "feeds.txt"))))
  = stories (set_current_index (-1)%Z (Fixture.populated (py "feeds.txt"))) /\
  (current_index
     (show_story (ext := Fixture.world) Fixture.story_x
        (set_current_index (-1)%Z (Fixture.populated (py "feeds.txt"))))
   = current_index
       (set_current_index (-1)%Z (Fixture.populated (py "feeds.txt"))) \/
   (Z.of_nat (List.length
                (stories (set_current_index (-1)%Z
                            (Fixture.populated (py "feeds.txt")))))
    <= current_index
         (set_current_index (-1)%Z (Fixture.populated (py "feeds.txt"))) /\
    current_index
      (show_story (ext := Fixture.world) Fixture.story_x
         (set_current_index (-1)%Z (Fixture.populated (py "feeds.txt"))))
    = 0)%Z) /\
  exists story,
    nth_error [Fixture.story_y; Fixture.story_x] (Z.to_nat ((-1) mod 2))
      = Some story /\
    py "X" = title story /\
    py "Feed A | 2024-01-01 00:00"
      = source story ++ py " | " ++ @strftime Fixture.world (date story) /\
    py "HelloWorld" = body story /\
    0%Z = 0%Z.
Proof.
  apply (@update_display_shows_current Fixture.world
           (set_current_index (-1)%Z (Fixture.populated (py "feeds.txt")))
           (show_story (ext := Fixture.world) Fixture.story_x
              (set_current_index (-1)%Z (Fixture.populated (py "feeds.txt"))))).
  - discriminate.
  - reflexivity.
Defined.

(* ===================================================================== *)
(** ** Further properties: navigation *)
(* ===================================================================== *)

Section Navigation.

Context `{ext : Externals}.

(** Lines 187-190 and 195-198 once the new index [j] is computed. *)
Lemma move_effect (app : App) (j : Z) :
  (0 <= j < Z.of_nat (List.length (stories app)))%Z ->
  exists story,
    nth_error (stories app) (Z.to_nat j) = Some story /\
    (app1 <- update_display (set_current_index j app) ;;
     Ok (reset_auto_timer app1)) =
    Ok (reset_auto_timer (show_story story (set_current_index j app))).
Proof.
  intros Hj.
  assert (stories (set_current_index j app) <> []) as Hs
    by (simpl; destruct (stories app); [simpl in Hj; lia | discriminate]).
  rewrite (update_display_cases _ Hs). cbv zeta.
  cbn [stories current_index set_current_index].
  assert ((Z.of_nat (List.length (stories app)) <=? j)%Z = false) as ->
    by (apply Z.leb_gt; lia).
  cbn [current_index set_current_index].
  destruct (list_getitem_cases (stories app) j) as [Hok _]. cbv zeta in Hok.
  destruct Hok as (story & -> & Hnth); [lia|].
  rewrite Z.mod_small in Hnth by lia. exists story. now split.
Qed.

Lemma stories_length_pos (app : App) :
  stories app <> [] -> (0 < Z.of_nat (List.length (stories app)))%Z.
Proof. destruct (stories app); [contradiction | simpl; lia]. Qed.

Lemma action_next_story_nonempty (app : App) :
  stories app <> [] ->
  action_next_story app =
  (app1 <- update_display
             (set_current_index
                ((current_index app + 1)
                 mod Z.of_nat (List.length (stories app)))%Z app) ;;
   Ok (reset_auto_timer app1)).
Proof.
  intros Hs. unfold action_next_story.
  destruct (stories app) eqn:Es; [contradiction|]. now rewrite <- Es.
Qed.

Lemma action_prev_story_nonempty (app : App) :
  stories app <> [] ->
  action_prev_story app =
  (app1 <- update_display
             (set_current_index
                ((current_index app - 1)
                 mod Z.of_nat (List.length (stories app)))%Z app) ;;
   Ok (reset_auto_timer app1)).
Proof.
  intros Hs. unfold action_prev_story.
  destruct (stories app) eqn:Es; [contradiction|]. now rewrite <- Es.
Qed.

Lemma action_next_story_effect (app : App) :
  stories app <> [] ->
  let j := ((current_index app + 1)
            mod Z.of_nat (List.length (stories app)))%Z in
  exists story,
    nth_error (stories app) (Z.to_nat j) = Some story /\
    action_next_story app =
    Ok (reset_auto_timer (show_story story (set_current_index j app))).
Proof.
  intros Hs j. pose proof (stories_length_pos _ Hs) as Hn.
  destruct (move_effect app j) as (story & Hnth & Hm);
    [apply Z.mod_pos_bound; exact Hn|].
  exists story. split; [exact Hnth|].
  rewrite (action_next_story_nonempty app Hs). exact Hm.
Qed.

Lemma action_prev_story_effect (app : App) :
  stories app <> [] ->
  let j := ((current_index app - 1)
            mod Z.of_nat (List.length (stories app)))%Z in
  exists story,
    nth_error (stories app) (Z.to_nat j) = Some story /\
    action_prev_story app =
    Ok (reset_auto_timer (show_story story (set_current_index j app))).
Proof.
  intros Hs j. pose proof (stories_length_pos _ Hs) as Hn.
  destruct (move_effect app j) as (story & Hnth & Hm);
    [apply Z.mod_pos_bound; exact Hn|].
  exists story. split; [exact Hnth|].
  rewrite (action_prev_story_nonempty app Hs). exact Hm.
Qed.

Lemma reset_auto_timer_fields (app : App) :
  feed_file (reset_auto_timer app) = feed_file app /\
  stories (reset_auto_timer app) = stories app /\
  current_index (reset_auto_timer app) = current_index app /\
  notifications (reset_auto_timer app) = notifications app /\
  title_widget (reset_auto_timer app) = title_widget app /\
  meta_widget (reset_auto_timer app) = meta_widget app /\
  body_widget (reset_auto_timer app) = body_widget app /\
  scroll_y (reset_auto_timer app) = scroll_y app /\
  auto_timer (reset_auto_timer app) =
    match auto_timer app with
    | Some _ => Some 0%Z
    | None => None
    end.
Proof.
  unfold reset_auto_timer. destruct (auto_timer app) eqn:E; simpl;
    repeat split; auto.
Qed.

Lemma moved_by_shown (app : App) (delta : Z) (story : Story) :
  stories app <> [] ->
  nth_error (stories app)
    (Z.to_nat ((current_index app + delta)
               mod Z.of_nat (List.length (stories app)))) = Some story ->
  moved_by delta app
    (reset_auto_timer
       (show_story story
          (set_current_index
             ((current_index app + delta)
              mod Z.of_nat (List.length (stories app)))%Z app))).
Proof.
  intros Hs Hnth. pose proof (stories_length_pos _ Hs) as Hn.
  unfold moved_by. cbv zeta.
  destruct (reset_auto_timer_fields
              (show_story story
                 (set_current_index
                    ((current_index app + delta)
                     mod Z.of_nat (List.length (stories app)))%Z app)))
    as (Hf & Hst & Hci & Hno & Hti & Hme & Hbo & Hsc & Hat).
  rewrite Hci, Hti, Hbo, Hme, Hat, Hst, Hf, Hno, Hsc. cbn.
  split; [reflexivity|]. split; [apply Z.mod_pos_bound; exact Hn|].
  split; [exists story; now repeat split|]. now repeat split.
Qed.

(** X8.  With stories to show, the two navigation handlers never raise,
    whatever the index was: they leave the index one further (or one
    back) modulo the number of stories, hence valid, show the story at
    that index, restart the timer when there is one, and touch neither
    the stories, the source file name nor the notifications. *)
Theorem navigation_moves_and_shows (app : App) :
  stories app <> [] ->
  (exists app', action_next_story app = Ok app' /\ moved_by 1 app app') /\
  (exists app', action_prev_story app = Ok app' /\ moved_by (-1) app app').
Proof.
  intros Hs. split.
  - destruct (action_next_story_effect app Hs) as (story & Hnth & ->).
    eexists. split; [reflexivity|]. now apply moved_by_shown.
  - destruct (action_prev_story_effect app Hs) as (story & Hnth & ->).
    eexists. split; [reflexivity|]. now apply (moved_by_shown app (-1)).
Qed.

(** The index after [k] calls of a handler that moves it by [delta]. *)
Lemma repeat_action_index (handler : App -> result App) (delta : Z) :
  (forall a, stories a <> [] ->
     exists a',
       handler a = Ok a' /\ stories a' = stories a /\
       current_index a' =
         ((current_index a + delta)
          mod Z.of_nat (List.length (stories a)))%Z) ->
  forall k app,
    stories app <> [] ->
    let n := Z.of_nat (List.length (stories app)) in
    exists app',
      repeat_action handler k app = Ok app' /\
      stories app' = stories app /\
      (current_index app' mod n
       = (current_index app + Z.of_nat k * delta) mod n)%Z /\
      (k <> O -> (0 <= current_index app' < n)%Z).
Proof.
  intros Hh. induction k as [|k IH]; intros app Hs n.
  - exists app. split; [reflexivity|]. split; [reflexivity|]. split.
    + f_equal. simpl. lia.
    + intros H0. contradiction.
  - pose proof (stories_length_pos _ Hs) as Hn. fold n in Hn.
    destruct (Hh app Hs) as (a1 & H1 & Hst1 & Hci1). fold n in Hci1.
    assert (stories a1 <> []) as Hs1 by (rewrite Hst1; exact Hs).
    destruct (IH a1 Hs1) as (app' & Hr & Hst & Hci & Hrange).
    rewrite Hst1 in Hst, Hci, Hrange. fold n in Hci, Hrange.
    exists app'. cbn [repeat_action]. rewrite H1. cbn [bind].
    split; [exact Hr|]. split; [exact Hst|]. split.
    + rewrite Hci, Hci1, Zplus_mod_idemp_l. f_equal.
      rewrite Nat2Z.inj_succ. ring.
    + intros _. destruct k as [|k'].
      * simpl in Hr. injection Hr as <-. rewrite Hci1.
        apply Z.mod_pos_bound. exact Hn.
      * apply Hrange. discriminate.
Qed.

(** X9.  The rotation is cyclic: from a valid index, as many calls of
    [action_next_story] as there are stories bring the index back where
    it was, and so do as many calls of [action_prev_story]; no call
    raises and the list is untouched. *)
Theorem rotation_is_cyclic (app : App) :
  index_valid app ->
  stories app <> [] ->
  (exists app',
     repeat_action action_next_story (List.length (stories app)) app = Ok app' /\
     current_index app' = current_index app /\
     stories app' = stories app) /\
  (exists app',
     repeat_action action_prev_story (List.length (stories app)) app = Ok app' /\
     current_index app' = current_index app /\
     stories app' = stories app).
Proof.
  intros Hv Hs. pose proof (stories_length_pos _ Hs) as Hn.
  specialize (Hv Hs).
  assert (List.length (stories app) <> O) as Hk
    by (destruct (stories app); [contradiction | discriminate]).
  split.
  - destruct (repeat_action_index action_next_story 1) with
      (k := List.length (stories app)) (app := app)
      as (app' & Hr & Hst & Hci & Hrange); [|exact Hs|].
    + intros a Ha. destruct (action_next_story_effect a Ha) as (s & _ & ->).
      eexists. split; [reflexivity|].
      destruct (reset_auto_timer_fields
                  (show_story s
                     (set_current_index
                        ((current_index a + 1)
                         mod Z.of_nat (List.length (stories a)))%Z a)))
        as (_ & -> & -> & _). now split.
    + exists app'. split; [exact Hr|]. split; [|exact Hst].
      specialize (Hrange Hk).
      replace (current_index app + Z.of_nat (List.length (stories app)) * 1)%Z
        with (current_index app
              + 1 * Z.of_nat (List.length (stories app)))%Z in Hci by lia.
      rewrite Z_mod_plus_full in Hci.
      rewrite !Z.mod_small in Hci by lia. exact Hci.
  - destruct (repeat_action_index action_prev_story (-1)) with
      (k := List.length (stories app)) (app := app)
      as (app' & Hr & Hst & Hci & Hrange); [|exact Hs|].
    + intros a Ha. destruct (action_prev_story_effect a Ha) as (s & _ & ->).
      eexists. split; [reflexivity|].
      destruct (reset_auto_timer_fields
                  (show_story s
                     (set_current_index
                        ((current_index a - 1)
                         mod Z.of_nat (List.length (stories a)))%Z a)))
        as (_ & -> & -> & _). now split.
    + exists app'. split; [exact Hr|]. split; [|exact Hst].
      specialize (Hrange Hk).
      replace (current_index app + Z.of_nat (List.length (stories app)) * -1)%Z
        with (current_index app
              + (-1) * Z.of_nat (List.length (stories app)))%Z in Hci by lia.
      rewrite Z_mod_plus_full in Hci.
      rewrite !Z.mod_small in Hci by lia. exact Hci.
Qed.

(** X10.  From a valid index, one step forward then one step back, or
    back then forward, is the same as showing the current story again
    and restarting the timer. *)
Theorem next_prev_round_trip (app : App) :
  index_valid app ->
  stories app <> [] ->
  (app1 <- action_next_story app ;; action_prev_story app1) =
    (app1 <- update_display app ;; Ok (reset_auto_timer app1)) /\
  (app1 <- action_prev_story app ;; action_next_story app1) =
    (app1 <- update_display app ;; Ok (reset_auto_timer app1)).
Proof.
  intros Hv Hs. pose proof (stories_length_pos _ Hs) as Hn.
  specialize (Hv Hs).
  set (n := Z.of_nat (List.length (stories app))) in *.
  destruct (move_effect app (current_index app) Hv) as (s & Hnth & Hshow).
  assert ((app1 <- update_display app ;; Ok (reset_auto_timer app1)) =
          Ok (reset_auto_timer (show_story s app))) as ->.
  { assert (set_current_index (current_index app) app = app) as Heta
      by (destruct app; reflexivity).
    rewrite Heta in Hshow. exact Hshow. }
  split.
  - destruct (action_next_story_effect app Hs) as (s1 & _ & ->). simpl.
    set (a1 := reset_auto_timer _).
    assert (stories a1 = stories app) as Hst
      by (subst a1; unfold reset_auto_timer;
          destruct (auto_timer _); reflexivity).
    assert (current_index a1 = ((current_index app + 1) mod n)%Z) as Hci
      by (subst a1; unfold reset_auto_timer;
          destruct (auto_timer _); reflexivity).
    assert (stories a1 <> []) as Hs1 by (rewrite Hst; exact Hs).
    destruct (action_prev_story_effect a1 Hs1) as (s2 & Hn2 & ->).
    cbv zeta in Hn2. rewrite Hst, Hci in *. fold n in Hn2 |- *.
    assert (((current_index app + 1) mod n - 1) mod n = current_index app)%Z
      as Hback.
    { rewrite Zminus_mod_idemp_l.
      replace (current_index app + 1 - 1)%Z with (current_index app) by lia.
      apply Z.mod_small. exact Hv. }
    rewrite Hback in *. rewrite Hnth in Hn2. injection Hn2 as <-.
    subst a1. unfold reset_auto_timer. destruct app as [f st i [t|] ti me bo sc no];
      reflexivity.
  - destruct (action_prev_story_effect app Hs) as (s1 & _ & ->). simpl.
    set (a1 := reset_auto_timer _).
    assert (stories a1 = stories app) as Hst
      by (subst a1; unfold reset_auto_timer;
          destruct (auto_timer _); reflexivity).
    assert (current_index a1 = ((current_index app - 1) mod n)%Z) as Hci
      by (subst a1; unfold reset_auto_timer;
          destruct (auto_timer _); reflexivity).
    assert (stories a1 <> []) as Hs1 by (rewrite Hst; exact Hs).
    destruct (action_next_story_effect a1 Hs1) as (s2 & Hn2 & ->).
    cbv zeta in Hn2. rewrite Hst, Hci in *. fold n in Hn2 |- *.
    assert (((current_index app - 1) mod n + 1) mod n = current_index app)%Z
      as Hback.
    { rewrite Zplus_mod_idemp_l.
      replace (current_index app - 1 + 1)%Z with (current_index app) by lia.
      apply Z.mod_small. exact Hv. }
    rewrite Hback in *. rewrite Hnth in Hn2. injection Hn2 as <-.
    subst a1. unfold reset_auto_timer. destruct app as [f st i [t|] ti me bo sc no];
      reflexivity.
Qed.

End Navigation.

Lemma navigation_moves_and_shows_witness :
  (exists app',
     @action_next_story Fixture.world (Fixture.populated (py "feeds.txt"))
       = Ok app' /\
     @moved_by Fixture.world 1 (Fixture.populated (py "feeds.txt")) app') /\
  (exists app',
     @action_prev_story Fixture.world (Fixture.populated (py "feeds.txt"))
       = Ok app' /\
     @moved_by Fixture.world (-1) (Fixture.populated (py "feeds.txt")) app').
Proof.
  apply (@navigation_moves_and_shows Fixture.world
           (Fixture.populated (py "feeds.txt"))).
  discriminate.
Defined.

Lemma rotation_is_cyclic_witness :
  (exists app',
     repeat_action (@action_next_story Fixture.world) 2
       (Fixture.populated (py "feeds.txt")) = Ok app' /\
     current_index app' = 1%Z /\
     stories app' = [Fixture.story_y; Fixture.story_x]) /\
  (exists app',
     repeat_action (@action_prev_story Fixture.world) 2
       (Fixture.populated (py "feeds.txt")) = Ok app' /\
     current_index app' = 1%Z /\
     stories app' = [Fixture.story_y; Fixture.story_x]).
Proof.
  apply (@rotation_is_cyclic Fixture.world (Fixture.populated (py "feeds.txt"))).
  - unfold index_valid. simpl. lia.
  - discriminate.
Defined.

Lemma next_prev_round_trip_witness :
  (app1 <- @action_next_story Fixture.world (Fixture.populated (py "feeds.txt")) ;;
   @action_prev_story Fixture.world app1) =
    (app1 <- @update_display Fixture.world (Fixture.populated (py "feeds.txt")) ;;
     Ok (reset_auto_timer app1)) /\
  (app1 <- @action_prev_story Fixture.world (Fixture.populated (py "feeds.txt")) ;;
   @action_next_story Fixture.world app1) =
    (app1 <- @update_display Fixture.world (Fixture.populated (py "feeds.txt")) ;;
     Ok (reset_auto_timer app1)).
Proof.
  apply (@next_prev_round_trip Fixture.world
           (Fixture.populated (py "feeds.txt"))).
  - unfold index_valid. simpl. lia.
  - discriminate.
Defined.

(* ===================================================================== *)
(** ** Further properties: the ingestion run *)
(* ===================================================================== *)

Section IngestionRun.

Context `{ext : Externals}.

Lemma FileNotFoundError_only (e : exception) :
  isinstance_FileNotFoundError e = true -> e = FileNotFoundError.
Proof. destruct e; simpl; congruence. Qed.

(** The three ways in which [load_feeds] returns. *)
Lemma load_feeds_outcomes (app app' : App) :
  load_feeds app = Ok app' ->
  (open_lines (feed_file app) = Raise FileNotFoundError /\
   app' = update_title (py "Error: feeds.txt not found") app) \/
  (exists lines,
     open_lines (feed_file app) = Ok lines /\
     for_urls (read_urls lines) [] = Ok [] /\
     app' = update_title (py "No stories found.") app) \/
  (exists lines all_entries top,
     open_lines (feed_file app) = Ok lines /\
     for_urls (read_urls lines) [] = Ok all_entries /\
     all_entries <> [] /\
     nth_error (sorted all_entries date true) 0 = Some top /\
     app' = show_story top
              (set_current_index 0%Z
                 (set_stories (sorted all_entries date true) app))).
Proof.
  intros Hl.
  destruct (open_lines (feed_file app)) as [lines|e] eqn:El.
  - destruct (for_urls (read_urls lines) []) as [all_entries|e] eqn:Eu.
    + rewrite (load_feeds_collected _ _ _ El Eu) in Hl.
      destruct all_entries as [|s0 l] eqn:Ea.
      * injection Hl as <-. right. left. now exists lines.
      * rewrite <- Ea in *. right. right.
        assert (all_entries <> []) as Hne by (rewrite Ea; discriminate).
        pose proof (sorted_nonempty date all_entries true Hne) as Hsn.
        rewrite update_display_cases in Hl by exact Hsn. cbv zeta in Hl.
        cbn [stories current_index set_current_index set_stories] in Hl.
        assert ((Z.of_nat (List.length (sorted all_entries date true)) <=? 0)%Z
                = false) as E0.
        { apply Z.leb_gt. destruct (sorted all_entries date true);
            [contradiction | simpl; lia]. }
        rewrite E0 in Hl.
        cbn [stories current_index set_current_index set_stories] in Hl.
        rewrite list_getitem_first in Hl.
        destruct (sorted all_entries date true) as [|top rest] eqn:Es;
          [contradiction|].
        simpl in Hl. injection Hl as <-.
        exists lines, all_entries, top.
        split; [reflexivity|]. split; [exact Eu|]. split; [exact Hne|].
        rewrite Es. split; reflexivity.
    + unfold load_feeds in Hl. rewrite El, Eu in Hl. discriminate.
  - unfold load_feeds in Hl. rewrite El in Hl.
    destruct (isinstance_FileNotFoundError e) eqn:Ee; [|discriminate].
    injection Hl as <-. left. now rewrite (FileNotFoundError_only _ Ee).
Qed.

(** With something collected, [load_feeds] returns. *)
Lemma load_feeds_publishes (app : App) (lines : list pystr)
    (all_entries : list Story) :
  open_lines (feed_file app) = Ok lines ->
  for_urls (read_urls lines) [] = Ok all_entries ->
  all_entries <> [] ->
  exists app', load_feeds app = Ok app'.
Proof.
  intros Hl Hu Hne. rewrite (load_feeds_collected _ _ _ Hl Hu).
  destruct all_entries as [|s0 l] eqn:Ea; [contradiction|]. rewrite <- Ea in *.
  destruct (update_display_shows
              (set_current_index 0%Z
                 (set_stories (sorted all_entries date true) app)))
    as (app' & Hd & _); [now apply sorted_nonempty | simpl; lia | eauto].
Qed.

(** X11.  A run of [load_feeds] that returns has touched neither the
    auto-advance timer, nor the name of the source file, nor the
    notifications: a refresh does not restart the countdown. *)
Theorem load_feeds_frame (app app' : App) :
  load_feeds app = Ok app' ->
  auto_timer app' = auto_timer app /\
  feed_file app' = feed_file app /\
  notifications app' = notifications app.
Proof.
  intros Hl.
  destruct (load_feeds_outcomes _ _ Hl)
    as [(_ & ->)|[(lines & _ & _ & ->)|(lines & all & top & _ & _ & _ & _ & ->)]];
    now repeat split.
Qed.

Lemma update_display_notify (message : pystr) (app : App) :
  update_display (notify message app) =
  (app' <- update_display app ;; Ok (notify message app')).
Proof.
  destruct (stories app) as [|s0 l] eqn:Es.
  - rewrite !update_display_empty; [reflexivity | exact Es | exact Es].
  - assert (stories app <> []) as Hs by (rewrite Es; discriminate).
    rewrite (update_display_cases app Hs).
    rewrite (update_display_cases (notify message app)) by exact Hs.
    cbv zeta. cbn [stories current_index notify].
    destruct (Z.of_nat (List.length (stories app)) <=? current_index app)%Z;
      cbn [stories current_index notify set_current_index];
      destruct (list_getitem (stories app) _); reflexivity.
Qed.

(** X12.  [refresh_feeds] only appends its notification and hands
    [load_feeds] to the worker.  The notification has no part in the
    load: when the worker runs on the state [refresh_feeds] left, it ends
    as [load_feeds] ends on the state before the notification, with the
    same exception or with the same state and the notification
    appended. *)
Theorem refresh_feeds_then_worker (app : App) :
  fst (refresh_feeds app) = notify (py "Refreshing RSS feeds...") app /\
  snd (refresh_feeds app) (fst (refresh_feeds app)) =
  (app' <- load_feeds app ;; Ok (notify (py "Refreshing RSS feeds...") app')).
Proof.
  split; [reflexivity|].
  unfold refresh_feeds, load_feeds. cbn [fst snd feed_file notify].
  destruct (open_lines (feed_file app)) as [lines|e].
  - destruct (for_urls (read_urls lines) []) as [[|s0 l]|e]; simpl;
      [reflexivity | | reflexivity].
    apply (update_display_notify (py "Refreshing RSS feeds...")
             (set_current_index 0%Z
                (set_stories (sorted (s0 :: l) date true) app))).
  - destruct (isinstance_FileNotFoundError e); reflexivity.
Qed.

Lemma filter_head_split {A} (p : A -> bool) (l r : list A) (x : A) :
  filter p l = x :: r ->
  exists l1 l2, l = l1 ++ x :: l2 /\ Forall (fun a => p a = false) l1.
Proof.
  induction l as [|a l IH]; simpl; [discriminate|].
  destruct (p a) eqn:Ea.
  - intros [= -> _]. exists [], l. now split.
  - intros Hf. destruct (IH Hf) as (l1 & l2 & -> & Hl1).
    exists (a :: l1), l2. split; [reflexivity | now constructor].
Qed.

(** X13.  When the run publishes a list, the story it shows is the most
    recent one collected, and among the stories of that date the first
    one discovered; the index is 0. *)
Theorem load_feeds_shows_most_recent (app : App) (lines : list pystr)
    (all_entries : list Story) :
  open_lines (feed_file app) = Ok lines ->
  for_urls (read_urls lines) [] = Ok all_entries ->
  all_entries <> [] ->
  exists app' top before after,
    load_feeds app = Ok app' /\
    current_index app' = 0%Z /\
    nth_error (stories app') 0 = Some top /\
    title_widget app' = title top /\
    meta_widget app' = source top ++ py " | " ++ strftime (date top) /\
    body_widget app' = body top /\
    all_entries = before ++ top :: after /\
    (forall s, In s before -> (date s < date top)%Z) /\
    (forall s, In s after -> (date s <= date top)%Z).
Proof.
  intros Hl Hu Hne.
  destruct (load_feeds_publishes app lines all_entries Hl Hu Hne)
    as (app' & Hload).
  destruct (load_feeds_outcomes _ _ Hload)
    as [(Hf & _)|[(lines' & Hl' & Hu' & _)|
                  (lines' & all' & top & Hl' & Hu' & _ & Hnth & ->)]].
  - congruence.
  - rewrite Hl in Hl'. injection Hl' as <-. rewrite Hu in Hu'.
    injection Hu' as ->. contradiction.
  - rewrite Hl in Hl'. injection Hl' as <-. rewrite Hu in Hu'.
    injection Hu' as <-.
    destruct (sorted_reverse_spec date all_entries) as (Hperm & Hsort & Hstab).
    destruct (sorted all_entries date true) as [|top' rest] eqn:Es;
      [discriminate|].
    simpl in Hnth. injection Hnth as ->.
    apply StronglySorted_inv in Hsort as [_ Hall].
    rewrite Forall_forall in Hall.
    assert (forall s, In s all_entries -> (date s <= date top)%Z) as Hmax.
    { intros s Hs. apply (Permutation_in _ Hperm) in Hs as [<-|Hs];
        [lia | now apply Hall]. }
    specialize (Hstab (date top)). cbn [filter] in Hstab.
    rewrite Z.eqb_refl in Hstab. symmetry in Hstab.
    destruct (filter_head_split _ _ _ _ Hstab)
      as (before & after & Hsplit & Hbefore).
    exists (show_story top
              (set_current_index 0%Z (set_stories (top :: rest) app))),
      top, before, after.
    rewrite Hload. cbn. repeat split; try exact Hsplit.
    + intros s Hs. rewrite Forall_forall in Hbefore.
      specialize (Hbefore s Hs). apply Z.eqb_neq in Hbefore.
      assert (date s <= date top)%Z
        by (apply Hmax; rewrite Hsplit; apply in_or_app; now left).
      lia.
    + intros s Hs. apply Hmax. rewrite Hsplit. apply in_or_app.
      right. now right.
Qed.

End IngestionRun.

Section Batch.

Context `{ext : Externals}.

Lemma story_of_entry_body (url : pystr) (parsed : FeedParserDict) (n : nat)
    (entry : Entry) (story : Story) :
  story_of_entry url parsed n entry = Ok story ->
  exists raw, clean_html BeautifulSoup raw = Ok (body story).
Proof.
  unfold story_of_entry.
  destruct (raw_content_of entry) as [raw|e]; [|discriminate]. simpl.
  destruct (clean_html BeautifulSoup raw) as [text|e] eqn:Eh; [|discriminate].
  simpl.
  destruct (match or_else (published_parsed entry) (updated_parsed entry) with
            | Some t => seconds <- time_mktime t ;; datetime_fromtimestamp seconds
            | None => Ok (datetime_now n)
            end) as [d|e]; [|discriminate].
  simpl. intros [= <-]. now exists raw.
Qed.

Lemma fetch_entries_bodies (url : pystr) (parsed : FeedParserDict)
    (todo : list Entry) (n : nat) :
  Forall (fun s => normalized_text (body s)) (fetch_entries url parsed todo n).
Proof.
  revert n. induction todo as [|entry todo IH]; intros n; simpl; [constructor|].
  destruct (story_of_entry url parsed n entry) as [story|e] eqn:Es;
    [|constructor].
  constructor; [|apply IH].
  destruct (story_of_entry_body _ _ _ _ _ Es) as (raw & Hraw).
  exact (clean_html_result_normalized _ _ _ Hraw).
Qed.

Lemma discovery_bodies (urls : list pystr) (n : nat) :
  Forall (fun s => normalized_text (body s)) (discovery urls n).
Proof.
  revert n. induction urls as [|url urls IH]; intros n; simpl; [constructor|].
  apply Forall_app. split; [|apply IH].
  unfold fetch. destruct (feedparser_parse url); [|constructor].
  apply fetch_entries_bodies.
Qed.

(** X14.  [load_feeds] keeps the stories' bodies normalized: when they
    are before the run they are after it, so that starting from the
    empty list no published body ever holds a newline, a tab, two spaces
    in a row or a space at either end. *)
Theorem load_feeds_bodies_normalized (app app' : App) :
  Forall (fun s => normalized_text (body s)) (stories app) ->
  load_feeds app = Ok app' ->
  Forall (fun s => normalized_text (body s)) (stories app').
Proof.
  intros Hb Hl.
  destruct (load_feeds_outcomes _ _ Hl)
    as [(_ & ->)|[(lines & _ & _ & ->)|
                  (lines & all & top & _ & Hu & _ & _ & ->)]];
    [exact Hb | exact Hb |].
  cbn [stories show_story scroll_home update_body update_meta update_title
         set_current_index set_stories].
  apply for_urls_discovery in Hu. simpl in Hu. subst all.
  destruct (sorted_reverse_spec date (discovery (read_urls lines) 0))
    as (Hperm & _).
  rewrite Forall_forall. intros s Hs.
  apply Permutation_sym in Hperm. apply (Permutation_in _ Hperm) in Hs.
  pose proof (discovery_bodies (read_urls lines) 0) as Hd.
  rewrite Forall_forall in Hd. now apply Hd.
Qed.

Lemma for_urls_app (urls more : list pystr) (all_entries : list Story) :
  for_urls (urls ++ more) all_entries =
  (collected <- for_urls urls all_entries ;; for_urls more collected).
Proof.
  revert all_entries. induction urls as [|url urls IH]; intros all_entries;
    [reflexivity|].
  simpl. destruct (try_feed url all_entries) as [acc [e|]]; [|apply IH].
  destruct (isinstance_Exception e); [apply IH | reflexivity].
Qed.

(** X15.  A source whose fetch fails with an [Exception] counts for
    nothing, wherever it stands in the source list: the loop collects
    what it collects without that source. *)
Theorem for_urls_skips_unreachable (before after : list pystr) (url : pystr)
    (e : exception) (all_entries : list Story) :
  feedparser_parse url = Raise e ->
  isinstance_Exception e = true ->
  for_urls (before ++ url :: after) all_entries =
  for_urls (before ++ after) all_entries.
Proof.
  intros Hp He. rewrite !for_urls_app.
  destruct (for_urls before all_entries) as [collected|e0]; [|reflexivity].
  simpl. unfold try_feed. now rewrite Hp, He.
Qed.

Lemma for_urls_raises (urls : list pystr) (all_entries : list Story)
    (e : exception) :
  for_urls urls all_entries = Raise e ->
  isinstance_Exception e = false /\
  exists url acc, In url urls /\ snd (try_feed url acc) = Some e.
Proof.
  revert all_entries. induction urls as [|url urls IH]; intros all_entries;
    [discriminate|].
  simpl. destruct (try_feed url all_entries) as [acc [e0|]] eqn:Et.
  - destruct (isinstance_Exception e0) eqn:Ee.
    + intros Hr. destruct (IH _ Hr) as (Hx & u & a & Hin & Hs).
      split; [exact Hx|]. exists u, a. split; [now right | exact Hs].
    + intros [= <-]. split; [exact Ee|].
      exists url, all_entries. split; [now left | now rewrite Et].
  - intros Hr. destruct (IH _ Hr) as (Hx & u & a & Hin & Hs).
    split; [exact Hx|]. exists u, a. split; [now right | exact Hs].
Qed.

(** X16.  The exceptions that leave [load_feeds]: one raised while the
    source list is read, unless it is [FileNotFoundError]; or one raised
    by a source and that is no instance of [Exception].  No [Exception]
    raised by a source, by the parser or by a date conversion leaves
    it, and showing the first story raises nothing. *)
Theorem load_feeds_raises (app : App) (e : exception) :
  load_feeds app = Raise e <->
  (open_lines (feed_file app) = Raise e /\
   isinstance_FileNotFoundError e = false) \/
  (exists lines,
     open_lines (feed_file app) = Ok lines /\
     for_urls (read_urls lines) [] = Raise e /\
     isinstance_Exception e = false).
Proof.
  split.
  - intros Hl. destruct (open_lines (feed_file app)) as [lines|e0] eqn:El.
    + right. exists lines. split; [reflexivity|].
      destruct (for_urls (read_urls lines) []) as [all_entries|e1] eqn:Eu.
      * destruct all_entries as [|s0 l] eqn:Ea.
        -- rewrite (load_feeds_collected _ _ _ El Eu) in Hl. discriminate.
        -- destruct (load_feeds_publishes app lines (s0 :: l) El Eu)
             as (app' & Hok); [discriminate | congruence].
      * unfold load_feeds in Hl. rewrite El, Eu in Hl. simpl in Hl.
        injection Hl as ->. split; [reflexivity|].
        now apply for_urls_raises in Eu.
    + left. unfold load_feeds in Hl. rewrite El in Hl.
      destruct (isinstance_FileNotFoundError e0) eqn:Ee; [discriminate|].
      injection Hl as ->. now split.
  - intros [(Ho & He)|(lines & Ho & Hu & _)]; unfold load_feeds; rewrite Ho.
    + now rewrite He.
    + now rewrite Hu.
Qed.

(** X17.  The entries of a feed that come after an entry that raises are
    never processed: the feed adds the stories of the entries before it
    and nothing else, whatever follows. *)
Theorem for_entries_stops_at_failure (url : pystr) (parsed : FeedParserDict)
    (done rest : list Entry) (bad : Entry) (all_entries : list Story)
    (e : exception) :
  List.length (fetch_entries url parsed done (List.length all_entries))
    = List.length done ->
  story_of_entry url parsed (List.length all_entries + List.length done) bad
    = Raise e ->
  for_entries url parsed (done ++ bad :: rest) all_entries =
  (all_entries ++ fetch_entries url parsed done (List.length all_entries),
   Some e).
Proof.
  revert all_entries. induction done as [|entry done IH];
    intros all_entries Hlen Hbad.
  - simpl in *. rewrite Nat.add_0_r in Hbad. rewrite Hbad.
    now rewrite app_nil_r.
  - simpl in *.
    destruct (story_of_entry url parsed (List.length all_entries) entry)
      as [story|e0]; [|discriminate].
    simpl in Hlen. injection Hlen as Hlen.
    rewrite IH.
    + rewrite length_app, Nat.add_1_r, <- app_assoc. reflexivity.
    + rewrite length_app, Nat.add_1_r. exact Hlen.
    + rewrite length_app. simpl.
      replace (List.length all_entries + 1 + List.length done)%nat
        with (List.length all_entries + S (List.length done))%nat by lia.
      exact Hbad.
Qed.

End Batch.

Lemma load_feeds_frame_witness :
  auto_timer (update_title (py "No stories found.")
                (Fixture.populated (py "down.txt")))
    = auto_timer (Fixture.populated (py "down.txt")) /\
  feed_file (update_title (py "No stories found.")
               (Fixture.populated (py "down.txt")))
    = feed_file (Fixture.populated (py "down.txt")) /\
  notifications (update_title (py "No stories found.")
                   (Fixture.populated (py "down.txt")))
    = notifications (Fixture.populated (py "down.txt")).
Proof.
  apply (@load_feeds_frame Fixture.world (Fixture.populated (py "down.txt"))).
  reflexivity.
Defined.

Lemma load_feeds_shows_most_recent_witness :
  exists app' top before after,
    @load_feeds Fixture.world (initial_app (py "feeds.txt")) = Ok app' /\
    current_index app' = 0%Z /\
    nth_error (stories app') 0 = Some top /\
    title_widget app' = title top /\
    meta_widget app' =
      source top ++ py " | " ++ @strftime Fixture.world (date top) /\
    body_widget app' = body top /\
    [Fixture.story_x; Fixture.story_y; Fixture.story_z; Fixture.story_c1]
      = before ++ top :: after /\
    (forall s, In s before -> (date s < date top)%Z) /\
    (forall s, In s after -> (date s <= date top)%Z).
Proof.
  apply (@load_feeds_shows_most_recent Fixture.world
           (initial_app (py "feeds.txt"))
           [py "A" ++ Fixture.NL; Fixture.NL; py "  B  " ++ Fixture.NL; py "C"]
           [Fixture.story_x; Fixture.story_y; Fixture.story_z; Fixture.story_c1]).
  - reflexivity.
  - reflexivity.
  - discriminate.
Defined.

Lemma load_feeds_bodies_normalized_witness :
  Forall (fun s => normalized_text (body s))
    [Fixture.story_y; Fixture.story_c1; Fixture.story_x; Fixture.story_z].
Proof.
  apply (@load_feeds_bodies_normalized Fixture.world
           (initial_app (py "feeds.txt"))
           (show_story (ext := Fixture.world) Fixture.story_y
              (set_current_index 0%Z
                 (set_stories
                    [Fixture.story_y; Fixture.story_c1;
                     Fixture.story_x; Fixture.story_z]
                    (initial_app (py "feeds.txt")))))).
  - constructor.
  - reflexivity.
Defined.

Lemma for_urls_skips_unreachable_witness :
  @for_urls Fixture.world ([py "A"] ++ py "B" :: [py "C"]) [] =
  @for_urls Fixture.world ([py "A"] ++ [py "C"]) [].
Proof.
  apply (@for_urls_skips_unreachable Fixture.world
           [py "A"] [py "C"] (py "B") URLError []).
  - reflexivity.
  - reflexivity.
Defined.

Lemma for_entries_stops_at_failure_witness :
  @for_entries Fixture.world (py "C")
    {| feed_title := None;
       entries := [Fixture.entry_c1; Fixture.entry_c2; Fixture.entry_c3] |}
    ([Fixture.entry_c1] ++ Fixture.entry_c2 :: [Fixture.entry_c3])
    [Fixture.story_x] =
  ([Fixture.story_x] ++
   @fetch_entries Fixture.world (py "C")
     {| feed_title := None;
        entries := [Fixture.entry_c1; Fixture.entry_c2; Fixture.entry_c3] |}
     [Fixture.entry_c1] (List.length [Fixture.story_x]),
   Some IndexError).
Proof.
  apply (@for_entries_stops_at_failure Fixture.world (py "C")
           {| feed_title := None;
              entries := [Fixture.entry_c1; Fixture.entry_c2; Fixture.entry_c3] |}
           [Fixture.entry_c1] [Fixture.entry_c3] Fixture.entry_c2
           [Fixture.story_x] IndexError).
  - reflexivity.
  - reflexivity.
Defined.
